(** * Cleaver: the SQLite reference backend and the split engine

    A shallow embedding of [cleaver/backend/memory.py] (class
    [SQLiteBackend]) together with the engine operations that the test
    suite exercises ([_parse_variants], [random_variant], [split]).

    The backend keeps five tables.  Each table is a list of rows in
    insertion order, which is the order in which SQLite's table scan
    hands them back for the statements used here (no row is ever
    deleted, so rowids grow with insertion).  A Python method is a
    computation over the database that may raise: the database reached
    so far is kept when an exception leaves the method, because the
    module never rolls back. *)

From Stdlib Require Import String List ZArith Bool Arith Lia.
From Equations Require Import Equations.
Import ListNotations.
Open Scope string_scope.
Open Scope list_scope.

(* ------------------------------------------------------------------ *)
(** ** Python outcomes *)

Module Py.

(** The exceptions that the modelled code can raise. *)
Inductive exn : Type :=
| NameError
| TypeError
| AttributeError
| ValueError
| IndexError
| IntegrityError
| ConfigurationError
| IdentityError
| ConsistencyError.

Inductive result (A : Type) : Type :=
| Ok (a : A)
| Raise (e : exn).
Arguments Ok {A} a.
Arguments Raise {A} e.

(** Values handed around by callers: what a variant decodes to, and
    what may be written in the weight position of a definition. *)
Inductive value : Type :=
| VBool (b : bool)
| VStr (s : string)
| VInt (z : Z)
| VNone.

End Py.
Export Py.

(* ------------------------------------------------------------------ *)
(** ** Column declarations *)

Module Sql.

(** A column is declared by its name followed by the words written
    after it.  SQLite reads every word up to the first constraint
    keyword as part of the type name, and a key constraint starts
    with the two words PRIMARY KEY. *)
Fixpoint declares_primary_key (words : list string) : bool :=
  match words with
  | w1 :: ((w2 :: _) as rest) =>
      (String.eqb w1 "PRIMARY" && String.eqb w2 "KEY")
      || declares_primary_key rest
  | _ => false
  end.

(** [e]: name TEXT PRIMARY KEY, started_on TEXT *)
Definition e_name_decl : list string := ["TEXT"; "PRIMARY"; "KEY"].
(** [v]: name TEXT PRIMARY KEY, experiment_name TEXT *)
Definition v_name_decl : list string := ["TEXT"; "PRIMARY"; "KEY"].
(** [i]: identity TEXT PRIMAY KEY, experiment_name TEXT, variant TEXT *)
Definition i_identity_decl : list string := ["TEXT"; "PRIMAY"; "KEY"].

Definition e_name_unique : bool := declares_primary_key e_name_decl.
Definition v_name_unique : bool := declares_primary_key v_name_decl.
Definition i_identity_unique : bool := declares_primary_key i_identity_decl.

End Sql.

(* ------------------------------------------------------------------ *)
(** ** The tables *)

Record e_row : Type := mk_e { e_name : string; e_started_on : option string }.
Record v_row : Type := mk_v { v_name : string; v_experiment_name : string }.
Record i_row : Type :=
  mk_i { i_identity : string; i_experiment_name : string; i_variant : string }.
(** Rows of [p] and of [c].  [c_total] is the number that Python's [int]
    reads from the [total] cell.  The cell is declared INTEGER: SQLite
    keeps a number in it as a 64-bit integer while it fits, and as a
    REAL once it does not. *)
Record counter_row : Type :=
  mk_counter { c_experiment_name : string; c_variant : string; c_total : Z }.

Record database : Type := mk_db {
  tbl_e : list e_row;
  tbl_v : list v_row;
  tbl_i : list i_row;
  tbl_p : list counter_row;
  tbl_c : list counter_row
}.

(** The state right after the five CREATE TABLE IF NOT EXISTS statements
    on a new database. *)
Definition empty_db : database := mk_db [] [] [] [] [].

Definition set_e (d : database) (t : list e_row) : database :=
  mk_db t (tbl_v d) (tbl_i d) (tbl_p d) (tbl_c d).
Definition set_v (d : database) (t : list v_row) : database :=
  mk_db (tbl_e d) t (tbl_i d) (tbl_p d) (tbl_c d).
Definition set_i (d : database) (t : list i_row) : database :=
  mk_db (tbl_e d) (tbl_v d) t (tbl_p d) (tbl_c d).
Definition set_p (d : database) (t : list counter_row) : database :=
  mk_db (tbl_e d) (tbl_v d) (tbl_i d) t (tbl_c d).
Definition set_c (d : database) (t : list counter_row) : database :=
  mk_db (tbl_e d) (tbl_v d) (tbl_i d) (tbl_p d) t.

(* ------------------------------------------------------------------ *)
(** ** Methods as computations over the database *)

Definition M (S A : Type) : Type := S -> S * result A.

Definition ret {S A} (a : A) : M S A := fun s => (s, Ok a).
Definition raise {S A} (e : exn) : M S A := fun s => (s, Raise e).
Definition bind {S A B} (m : M S A) (k : A -> M S B) : M S B :=
  fun s =>
    match m s with
    | (s', Ok a) => k a s'
    | (s', Raise e) => (s', Raise e)
    end.
(** A read (a SELECT): looks at the state and leaves it as it is. *)
Definition query {S A} (f : S -> A) : M S A := fun s => (s, Ok (f s)).
(** A write that cannot fail. *)
Definition modify {S} (f : S -> S) : M S unit := fun s => (f s, Ok tt).
(** The outcome of a computation that does not touch the state. *)
Definition lift {S A} (r : result A) : M S A := fun s => (s, r).

Declare Scope py_scope.
Delimit Scope py_scope with py.
Notation "x <- m ;; k" := (bind m (fun x => k))
  (at level 61, m at next level, right associativity) : py_scope.
Notation "m ;; k" := (bind m (fun _ => k))
  (at level 61, right associativity) : py_scope.
Open Scope py_scope.

(** [for x in xs: body(x)] *)
Fixpoint for_each {S A} (xs : list A) (body : A -> M S unit) : M S unit :=
  match xs with
  | [] => ret tt
  | x :: xs' => body x ;; for_each xs' body
  end.

(** The [fetchone()] of a cursor: its first row, or [None]. *)
Definition fetchone {A} (rows : list A) : option A := hd_error rows.

(* ------------------------------------------------------------------ *)
(** ** SQLiteBackend *)

(** What [cleaver.experiment.Experiment] is built from in [_factory];
    the [backend] argument is the backend itself and is left out. *)
Record Experiment : Type := mk_experiment {
  name : string;
  started_on : option string;
  variants : list string
}.

Module SQLiteBackend.

(** *** Statements *)

(** INSERT INTO e (name) VALUES (?) *)
Definition insert_e (nm : string) : M database unit :=
  fun d =>
    if Sql.e_name_unique
       && existsb (fun r => String.eqb (e_name r) nm) (tbl_e d)
    then (d, Raise IntegrityError)
    else (set_e d (tbl_e d ++ [mk_e nm None]), Ok tt).

(** INSERT INTO v (name, experiment_name) VALUES (?, ?) *)
Definition insert_v (nm experiment_name : string) : M database unit :=
  fun d =>
    if Sql.v_name_unique
       && existsb (fun r => String.eqb (v_name r) nm) (tbl_v d)
    then (d, Raise IntegrityError)
    else (set_v d (tbl_v d ++ [mk_v nm experiment_name]), Ok tt).

(** INSERT INTO i (identity, experiment_name, variant) VALUES (?, ?, ?) *)
Definition insert_i (identity experiment_name variant : string) : M database unit :=
  fun d =>
    if Sql.i_identity_unique
       && existsb (fun r => String.eqb (i_identity r) identity) (tbl_i d)
    then (d, Raise IntegrityError)
    else (set_i d (tbl_i d ++ [mk_i identity experiment_name variant]),
          Ok tt).

(** WHERE experiment_name = ? AND variant = ? *)
Definition counter_at (experiment_name variant : string)
           (r : counter_row) : bool :=
  String.eqb (c_experiment_name r) experiment_name
  && String.eqb (c_variant r) variant.

(** INSERT OR IGNORE INTO _ (experiment_name, variant) VALUES (?, ?)
    on a table keyed by PRIMARY KEY (experiment_name, variant), with
    total INTEGER DEFAULT 0. *)
Definition insert_or_ignore (experiment_name variant : string)
           (t : list counter_row) : list counter_row :=
  if existsb (counter_at experiment_name variant) t
  then t
  else t ++ [mk_counter experiment_name variant 0].

(** UPDATE _ SET total = total + 1
    WHERE experiment_name = ? AND variant = ? *)
(** The bounds of a 64-bit INTEGER cell, [-2^63] and [2^63 - 1]. *)
Definition int64_min : Z := -9223372036854775808.
Definition int64_max : Z := 9223372036854775807.

Definition fits_int64 (z : Z) : bool :=
  Z.leb int64_min z && Z.leb z int64_max.

(** [total + 1] as SQLite evaluates it.  On an integer the sum is the
    integer sum; from [2^63 - 1] it overflows and is computed in
    floating point instead, which gives the REAL [2^63] exactly.  On a
    REAL cell, whose size is [2^63] or more, the floating-point sum
    rounds back to the cell's own number. *)
Definition plus_one (total : Z) : Z :=
  if fits_int64 total then (total + 1)%Z else total.

Definition bump (r : counter_row) : counter_row :=
  mk_counter (c_experiment_name r) (c_variant r) (plus_one (c_total r)).

Definition update_total (experiment_name variant : string)
           (t : list counter_row) : list counter_row :=
  map (fun r => if counter_at experiment_name variant r then bump r else r)
      t.

(** SELECT total FROM _ WHERE experiment_name = ? AND variant = ? *)
Definition select_total (experiment_name variant : string)
           (t : list counter_row) : option counter_row :=
  fetchone (filter (counter_at experiment_name variant) t).

(** [int(row['total']) if row and row['total'] else 0] *)
Definition total_or_zero (row : option counter_row) : Z :=
  match row with
  | Some r => if Z.eqb (c_total r) 0 then 0%Z else c_total r
  | None => 0%Z
  end.

(** *** Methods *)

Definition _factory (d : database) (row : e_row) : Experiment :=
  mk_experiment
    (e_name row)
    (e_started_on row)
    (map v_name
         (filter (fun v => String.eqb (v_experiment_name v) (e_name row))
                 (tbl_v d))).

Definition all_experiments : M database (list Experiment) :=
  query (fun d => map (_factory d) (tbl_e d)).

Definition get_experiment (nm : string) (variants : list string)
  : M database (option Experiment) :=
  query (fun d =>
           match fetchone
                   (filter (fun r => String.eqb (e_name r) nm) (tbl_e d))
           with
           | Some row => Some (_factory d row)
           | None => None
           end).

Definition set_experiment (nm : string) (variants : list string)
  : M database unit :=
  insert_e nm ;;
  for_each variants (fun v => insert_v v nm).

Definition get_variant (identity experiment_name : string)
  : M database (option string) :=
  query (fun d =>
           match fetchone
                   (filter (fun r =>
                              String.eqb (i_identity r) identity
                              && String.eqb (i_experiment_name r)
                                            experiment_name)
                           (tbl_i d))
           with
           | Some row => Some (i_variant row)
           | None => None
           end).

Definition participate (identity experiment_name variant : string)
  : M database unit :=
  insert_i identity experiment_name variant ;;
  modify (fun d =>
            set_p d (insert_or_ignore experiment_name variant (tbl_p d))) ;;
  modify (fun d =>
            set_p d (update_total experiment_name variant (tbl_p d))).

Definition score (experiment_name variant : string) : M database unit :=
  modify (fun d =>
            set_c d (insert_or_ignore experiment_name variant (tbl_c d))) ;;
  modify (fun d =>
            set_c d (update_total experiment_name variant (tbl_c d))).

Definition participants (experiment_name variant : string)
  : M database Z :=
  query (fun d =>
           total_or_zero (select_total experiment_name variant (tbl_p d))).

Definition conversions (experiment_name variant : string)
  : M database Z :=
  query (fun d =>
           total_or_zero (select_total experiment_name variant (tbl_c d))).

End SQLiteBackend.

(* ------------------------------------------------------------------ *)
(** ** Histories of a store *)

Module History.

(** The writing methods of the backend, as a caller issues them. *)
Inductive call : Type :=
| SetExperiment (nm : string) (variants : list string)
| Participate (identity experiment_name variant : string)
| Score (experiment_name variant : string).

Definition perform (c : call) : M database unit :=
  match c with
  | SetExperiment nm vs => SQLiteBackend.set_experiment nm vs
  | Participate i e v => SQLiteBackend.participate i e v
  | Score e v => SQLiteBackend.score e v
  end.

(** The database a call leaves behind, whether it returned or raised. *)
Definition after (d : database) (c : call) : database := fst (perform c d).

(** The database reached from the freshly created tables. *)
Definition replay (cs : list call) : database := fold_left after cs empty_db.

Definition reachable (d : database) : Prop := exists cs, replay cs = d.

Definition participates_in (experiment_name variant : string) (c : call)
  : bool :=
  match c with
  | Participate _ e v => String.eqb e experiment_name && String.eqb v variant
  | _ => false
  end.

Definition scores (experiment_name variant : string) (c : call) : bool :=
  match c with
  | Score e v => String.eqb e experiment_name && String.eqb v variant
  | _ => false
  end.

(** What the key constraints and the order of the INSERTs maintain. *)
Definition consistent (d : database) : Prop :=
  NoDup (map e_name (tbl_e d))
  /\ NoDup (map v_name (tbl_v d))
  /\ (forall r, In r (tbl_v d) ->
                In (v_experiment_name r) (map e_name (tbl_e d))).

(** Rows of the assignment table held for one visitor and experiment. *)
Definition assignments (identity experiment_name : string) (d : database)
  : list i_row :=
  filter (fun r => String.eqb (i_identity r) identity
                   && String.eqb (i_experiment_name r) experiment_name)
         (tbl_i d).

End History.

(* ------------------------------------------------------------------ *)
(** ** Construction of the backend *)

Module Constructor.

Inductive interpreter : Type := Python2 | Python3.

Inductive class : Type :=
| cls_object | cls_type | cls_basestring | cls_str | cls_int
| cls_NoneType | cls_Connection.

Definition class_eqb (a b : class) : bool :=
  match a, b with
  | cls_object, cls_object | cls_type, cls_type
  | cls_basestring, cls_basestring | cls_str, cls_str
  | cls_int, cls_int | cls_NoneType, cls_NoneType
  | cls_Connection, cls_Connection => true
  | _, _ => false
  end.

(** An open connection: whether its row factory is [sqlite3.Row], and
    the tables its database has. *)
Record connection : Type :=
  mk_connection { row_factory_is_Row : bool; tables : list string }.

(** The objects that may be passed as [db]. *)
Inductive object : Type :=
| OStr (s : string)
| OConnection (c : connection)
| ONone
| OInt (z : Z)
| OClass (c : class).

Definition type_of (o : object) : class :=
  match o with
  | OStr _ => cls_str
  | OConnection _ => cls_Connection
  | ONone => cls_NoneType
  | OInt _ => cls_int
  | OClass _ => cls_type
  end.

Definition issubclass (a b : class) : bool :=
  class_eqb b cls_object
  || class_eqb a b
  || (class_eqb a cls_str && class_eqb b cls_basestring).

(** [isinstance(obj, classinfo)]: the second argument has to be a
    class. *)
Definition isinstance (obj classinfo : object) : result bool :=
  match classinfo with
  | OClass c => Ok (issubclass (type_of obj) c)
  | _ => Raise TypeError
  end.

(** The builtin name [basestring], which only Python 2 defines. *)
Definition basestring (py : interpreter) : result object :=
  match py with
  | Python2 => Ok (OClass cls_basestring)
  | Python3 => Raise NameError
  end.

(** The instance under construction: its [_conn] attribute, once set. *)
Record backend : Type := mk_backend { _conn : option connection }.

Definition new_backend : backend := mk_backend None.

Section WithSqlite.

(** [sqlite3.connect] on a connection string. *)
Variable open_database : string -> connection.

Definition connect (db : object) : result connection :=
  match db with
  | OStr s => Ok (open_database s)
  | _ => Raise TypeError
  end.

(** [self._conn]: an AttributeError while the attribute is unset. *)
Definition self_conn : M backend connection :=
  fun self =>
    match _conn self with
    | Some c => (self, Ok c)
    | None => (self, Raise AttributeError)
    end.

Definition set_conn (c : connection) : M backend unit :=
  modify (fun _ => mk_backend (Some c)).

(** [self._conn.execute("CREATE TABLE IF NOT EXISTS t (...)")] *)
Definition create_table_if_not_exists (t : string) : M backend unit :=
  c <- self_conn ;;
  set_conn (mk_connection
              (row_factory_is_Row c)
              (if existsb (String.eqb t) (tables c)
               then tables c else tables c ++ [t])).

Definition __init__ (py : interpreter) (db : object) (table_prefix : string)
  : M backend unit :=
  bs <- lift (basestring py) ;;
  is_string <- lift (isinstance bs db) ;;
  (if is_string : bool
   then c <- lift (connect db) ;; set_conn c
   else ret tt) ;;
  c <- self_conn ;;
  set_conn (mk_connection true (tables c)) ;;
  create_table_if_not_exists "e" ;;
  create_table_if_not_exists "v" ;;
  create_table_if_not_exists "i" ;;
  create_table_if_not_exists "p" ;;
  create_table_if_not_exists "c".

End WithSqlite.

End Constructor.

(* ------------------------------------------------------------------ *)
(** ** The engine *)

Module Engine.

(** One caller-supplied variant definition: [(name, value)] or
    [(name, value, weight)]. *)
Inductive definition : Type :=
| Pair (nm : string) (v : value)
| Triple (nm : string) (v : value) (weight : value).

Definition def_name (x : definition) : string :=
  match x with Pair n _ => n | Triple n _ _ => n end.
Definition def_value (x : definition) : value :=
  match x with Pair _ v => v | Triple _ v _ => v end.
Definition has_weight (x : definition) : bool :=
  match x with Pair _ _ => false | Triple _ _ _ => true end.

(** A missing weight defaults to 1; a supplied one has to be a
    positive integer. *)
Definition def_weight (x : definition) : option Z :=
  match x with
  | Pair _ _ => Some 1%Z
  | Triple _ _ (VInt z) => if Z.ltb 0 z then Some z else None
  | Triple _ _ _ => None
  end.

Fixpoint weights_of (raw : list definition) : option (list Z) :=
  match raw with
  | [] => Some []
  | x :: raw' =>
      match def_weight x, weights_of raw' with
      | Some w, Some ws => Some (w :: ws)
      | _, _ => None
      end
  end.

Definition same_arity (raw : list definition) : bool :=
  forallb has_weight raw || forallb (fun x => negb (has_weight x)) raw.

Fixpoint unique (names : list string) : bool :=
  match names with
  | [] => true
  | n :: names' => negb (existsb (String.eqb n) names') && unique names'
  end.

(** Modelled from the spec: [parse], the engine's [_parse_variants],
    which lives in a module that is not part of the sources at hand.
    Empty input gives the boolean default; otherwise all tuples have
    one arity, there are at least two of them, names are unique and
    weights are positive integers, and the three outputs follow the
    input order. *)
Definition parse (raw : list definition)
  : result (list string * list value * list Z) :=
  match raw with
  | [] => Ok (["True"; "False"], [VBool true; VBool false], [1%Z; 1%Z])
  | _ =>
      if negb (same_arity raw) then Raise ConfigurationError
      else if Nat.ltb (length raw) 2 then Raise ConfigurationError
      else if negb (unique (map def_name raw)) then Raise ConfigurationError
      else match weights_of raw with
           | Some ws => Ok (map def_name raw, map def_value raw, ws)
           | None => Raise ConfigurationError
           end
  end.

(** Modelled from the spec: the cumulative-sum array of the reference
    sampler ([random_variant], not part of the sources at hand); one
    entry per weight. *)
Fixpoint cumulative (acc : Z) (weights : list Z) : list Z :=
  match weights with
  | [] => []
  | w :: weights' => (acc + w)%Z :: cumulative (acc + w)%Z weights'
  end.

(** [sum(weights)] *)
Definition total (weights : list Z) : Z := fold_right Z.add 0%Z weights.

(** Modelled from the spec: the binary search of the reference sampler
    over the boundaries [a], between [lo] and [hi].  The second
    component counts the boundaries that were compared with [x]. *)
Equations? bisect (a : list Z) (x : Z) (lo hi : nat) : nat * nat
  by wf (hi - lo) lt :=
  bisect a x lo hi with lt_dec lo hi => {
    | left _ with Z.ltb x (nth ((lo + hi) / 2) a 0%Z) => {
        | true := let r := bisect a x lo ((lo + hi) / 2) in
                  (fst r, S (snd r));
        | false := let r := bisect a x (S ((lo + hi) / 2)) hi in
                   (fst r, S (snd r)) };
    | right _ := (lo, 0) }.
Proof.
  all: change (fst (Nat.divmod (lo + hi) 1 0 1)) with ((lo + hi) / 2).
  all: assert (lo <= (lo + hi) / 2 < hi)
    by (split;
        [apply Nat.div_le_lower_bound | apply Nat.Div0.div_lt_upper_bound];
        lia); lia.
Qed.

(** Modelled from the spec: [choose], one selection of the reference
    sampler for the draw [x] out of [0, sum(weights)). *)
Definition choose (weights : list Z) (x : Z) : nat :=
  fst (bisect (cumulative 0 weights) x 0 (length weights)).

(** Comparisons spent by one selection. *)
Definition choose_cost (weights : list Z) (x : Z) : nat :=
  snd (bisect (cumulative 0 weights) x 0 (length weights)).

(** The number of comparisons a binary search may spend on [n]
    boundaries. *)
Definition probes (n : nat) : nat :=
  match n with 0 => 0 | _ => S (Nat.log2 n) end.

(** [names.index(n)] *)
Fixpoint index (n : string) (names : list string) : option nat :=
  match names with
  | [] => None
  | m :: names' =>
      if String.eqb m n then Some 0
      else match index n names' with
           | Some k => Some (S k)
           | None => None
           end
  end.

(** Modelled from the spec: [split] of the assignment engine (section
    4.4), over the backend above.  [get_identity] is the outcome of the
    identity provider and [draw] the number the sampler draws. *)
Definition split (experiment_name : string) (raw : list definition)
           (get_identity : result string) (draw : Z) : M database value :=
  parsed <- lift (parse raw) ;;
  let '(names, values, weights) := parsed in
  experiment <- SQLiteBackend.get_experiment experiment_name names ;;
  match experiment with
  | Some _ => ret tt
  | None =>
      SQLiteBackend.set_experiment experiment_name names ;;
      again <- SQLiteBackend.get_experiment experiment_name names ;;
      match again with
      | Some _ => ret tt
      | None => raise ConsistencyError
      end
  end ;;
  identity <- lift get_identity ;;
  stored <- SQLiteBackend.get_variant identity experiment_name ;;
  variant_name <-
    match stored with
    | Some v => ret v
    | None =>
        match nth_error names (choose weights draw) with
        | Some v =>
            SQLiteBackend.participate identity experiment_name v ;; ret v
        | None => raise IndexError
        end
    end ;;
  match index variant_name names with
  | Some k =>
      match nth_error values k with
      | Some x => ret x
      | None => raise IndexError
      end
  | None => raise ValueError
  end.

(** Repeated calls of [split] by one visitor, one draw per call. *)
Fixpoint split_each (experiment_name : string) (raw : list definition)
         (identity : string) (draws : list Z) : M database (list value) :=
  match draws with
  | [] => ret []
  | x :: draws' =>
      v <- split experiment_name raw (Ok identity) x ;;
      vs <- split_each experiment_name raw identity draws' ;;
      ret (v :: vs)
  end.

End Engine.

(* ------------------------------------------------------------------ *)
(** ** Visits *)

Module Visits.
Import History.





End Visits.

(* ------------------------------------------------------------------ *)
(** ** Readings of the store contract *)

Module Contract.



(** Every call of [participate] adds exactly one to what [participants]
    returns for the pair, and every call of [score] adds exactly one to
    what [conversions] returns, on every database. *)
Definition every_call_adds_one : Prop :=
  forall d identity e v,
    (before <- SQLiteBackend.participants e v ;;
     SQLiteBackend.participate identity e v ;;
     afterwards <- SQLiteBackend.participants e v ;;
     ret (afterwards - before)%Z) d
    = (History.after d (History.Participate identity e v), Ok 1%Z)
    /\
    (before <- SQLiteBackend.conversions e v ;;
     SQLiteBackend.score e v ;;
     afterwards <- SQLiteBackend.conversions e v ;;
     ret (afterwards - before)%Z) d
    = (History.after d (History.Score e v), Ok 1%Z).

(** A store whose participation counter for [show_promo]/[True] has
    reached [2^63], the number at which the cell is a REAL. *)
Definition full_counter_db : database :=
  mk_db [] [] []
        [mk_counter "show_promo" "True" (SQLiteBackend.int64_max + 1)]
        [].

(** A store with the experiment [primary_color] of variants [red] and
    [green], as [set_experiment] leaves it. *)
Definition primary_color_db : database :=
  History.replay [History.SetExperiment "primary_color" ["red"; "green"]].

End Contract.

(* ------------------------------------------------------------------ *)
(** ** Reading a history *)

Module Ledger.
Import History.

(** The call is [set_experiment] for the name, whatever its variants. *)
Definition sets_name (nm : string) (c : call) : bool :=
  match c with
  | SetExperiment n _ => String.eqb n nm
  | _ => false
  end.

(** The variant that the call assigns to the visitor in the experiment,
    when it is a [participate] for that pair. *)
Definition assigns (identity experiment_name : string) (c : call)
  : option string :=
  match c with
  | Participate i e v =>
      if String.eqb i identity && String.eqb e experiment_name
      then Some v else None
  | _ => None
  end.

(** The variant of the earliest [participate] for the pair. *)
Fixpoint first_participation (identity experiment_name : string)
         (cs : list call) : option string :=
  match cs with
  | [] => None
  | c :: cs' =>
      match assigns identity experiment_name c with
      | Some v => Some v
      | None => first_participation identity experiment_name cs'
      end
  end.

(** How many calls of a history satisfy [f]. *)
Definition count_calls (f : call -> bool) (cs : list call) : Z :=
  Z.of_nat (length (filter f cs)).

(** Rows of the assignment table that name the experiment and the
    variant. *)
Definition assigned_to (experiment_name variant : string) (d : database)
  : list i_row :=
  filter (fun r => String.eqb (i_experiment_name r) experiment_name
                   && String.eqb (i_variant r) variant)
         (tbl_i d).

(** What the accessors read from a counter table. *)
Definition counted (t : list counter_row) (experiment_name variant : string)
  : Z :=
  SQLiteBackend.total_or_zero
    (SQLiteBackend.select_total experiment_name variant t).

Definition e_names (d : database) : list string := map e_name (tbl_e d).
Definition v_names (d : database) : list string := map v_name (tbl_v d).

(** A history with two experiments, six participations over three
    visitors and one conversion. *)
Definition busy_history : list call :=
  [SetExperiment "show_promo" ["True"; "False"];
   Participate "ann" "show_promo" "True";
   SetExperiment "primary_color" ["red"; "green"];
   Participate "bob" "show_promo" "True";
   Participate "ann" "primary_color" "green";
   Participate "ann" "show_promo" "False";
   Score "show_promo" "True";
   Participate "cid" "show_promo" "False";
   Participate "bob" "primary_color" "red"].

End Ledger.

(* ------------------------------------------------------------------ *)
(** * Properties *)

(** ** Sequencing *)

Lemma bind_ok_inv {S A B} (m : M S A) (k : A -> M S B) s s' b :
  bind m k s = (s', Ok b) ->
  exists a s1, m s = (s1, Ok a) /\ k a s1 = (s', Ok b).
Proof.
  unfold bind. destruct (m s) as [s1 [a | e]]; intros H.
  - exists a, s1. split; [reflexivity | exact H].
  - discriminate H.
Qed.


Lemma bind_ok_step {S A B} (m : M S A) (k : A -> M S B) s s1 a :
  m s = (s1, Ok a) -> bind m k s = k a s1.
Proof. unfold bind. intros ->. reflexivity. Qed.

Lemma bind_raise_step {S A B} (m : M S A) (k : A -> M S B) s s1 e :
  m s = (s1, Raise e) -> bind m k s = (s1, Raise e).
Proof. unfold bind. intros ->. reflexivity. Qed.


(** ** What the declarations enforce *)

Lemma e_name_is_key : Sql.e_name_unique = true.
Proof. reflexivity. Qed.

Lemma v_name_is_key : Sql.v_name_unique = true.
Proof. reflexivity. Qed.

(** The misspelt PRIMAY is read as part of the type name of [identity]. *)
Lemma i_identity_is_no_key : Sql.i_identity_unique = false.
Proof. reflexivity. Qed.

(** ** Counters *)

Module CounterFacts.
Import SQLiteBackend.

Section OneKey.
Variables e v : string.

Lemma counter_at_bump r : counter_at e v (bump r) = counter_at e v r.
Proof. reflexivity. Qed.

Lemma select_update t :
  select_total e v (update_total e v t)
  = option_map bump (select_total e v t).
Proof.
  unfold select_total, update_total.
  induction t as [| r t IH]; simpl; [reflexivity |].
  destruct (counter_at e v r) eqn:Hr; simpl.
  - rewrite counter_at_bump, Hr. reflexivity.
  - rewrite Hr. exact IH.
Qed.

Lemma select_absent t :
  existsb (counter_at e v) t = false -> select_total e v t = None.
Proof.
  unfold select_total.
  induction t as [| r t IH]; simpl; [reflexivity |].
  destruct (counter_at e v r); simpl; [discriminate | exact IH].
Qed.

Lemma select_present t :
  existsb (counter_at e v) t = true ->
  exists r, select_total e v t = Some r.
Proof.
  unfold select_total.
  induction t as [| r t IH]; simpl; [discriminate |].
  destruct (counter_at e v r); simpl; [eauto | exact IH].
Qed.

Lemma select_snoc_absent t r :
  existsb (counter_at e v) t = false ->
  counter_at e v r = true ->
  select_total e v (t ++ [r]) = Some r.
Proof.
  unfold select_total. intros Ht Hr.
  rewrite filter_app. simpl. rewrite Hr.
  induction t as [| r0 t IH]; simpl in *; [reflexivity |].
  destruct (counter_at e v r0); simpl in *; [discriminate | auto].
Qed.

Lemma counter_at_refl : counter_at e v (mk_counter e v 0) = true.
Proof. unfold counter_at; simpl. now rewrite !String.eqb_refl. Qed.

(** What [total_or_zero] makes of a cell is the cell's number. *)
Lemma total_or_zero_some r : total_or_zero (Some r) = c_total r.
Proof.
  simpl. destruct (Z.eqb_spec (c_total r) 0) as [-> | _]; reflexivity.
Qed.

(** INSERT OR IGNORE followed by the UPDATE moves what the accessor
    reads by one [plus_one], with or without a row to start from. *)
Lemma bumped_total t :
  total_or_zero
    (select_total e v (update_total e v (insert_or_ignore e v t)))
  = plus_one (total_or_zero (select_total e v t)).
Proof.
  rewrite select_update. unfold insert_or_ignore.
  destruct (existsb (counter_at e v) t) eqn:Hex.
  - destruct (select_present t Hex) as [r ->].
    cbn [option_map]. now rewrite !total_or_zero_some.
  - rewrite (select_snoc_absent t _ Hex counter_at_refl).
    rewrite (select_absent t Hex). reflexivity.
Qed.

(** Rows at another key are neither created nor touched. *)
Lemma existsb_update e' v' t :
  existsb (counter_at e v) (update_total e' v' t)
  = existsb (counter_at e v) t.
Proof.
  unfold update_total.
  induction t as [| r t IH]; simpl; [reflexivity |].
  rewrite IH. destruct (counter_at e' v' r); reflexivity.
Qed.

Lemma existsb_insert_other e' v' t :
  String.eqb e' e && String.eqb v' v = false ->
  existsb (counter_at e v) (insert_or_ignore e' v' t)
  = existsb (counter_at e v) t.
Proof.
  intros Hne. unfold insert_or_ignore.
  destruct (existsb (counter_at e' v') t); [reflexivity |].
  rewrite existsb_app. simpl. unfold counter_at at 2. simpl.
  rewrite Hne. now rewrite !orb_false_r.
Qed.

End OneKey.
End CounterFacts.

(** ** The writing methods, run *)

Module BackendFacts.
Import SQLiteBackend.

Lemma for_each_invariant {S A} (P : S -> Prop) (body : A -> M S unit) xs :
  (forall x s, P s -> P (fst (body x s))) ->
  forall s, P s -> P (fst (for_each xs body s)).
Proof.
  intros Hbody. induction xs as [| x xs IH]; intros s Hs; simpl.
  - exact Hs.
  - unfold bind. specialize (Hbody x s Hs).
    destruct (body x s) as [s1 [[] | err]]; simpl in *.
    + apply IH, Hbody.
    + exact Hbody.
Qed.

Lemma insert_i_run identity e v d :
  insert_i identity e v d
  = (set_i d (tbl_i d ++ [mk_i identity e v]), Ok tt).
Proof. reflexivity. Qed.

(** [participate] never raises: nothing constrains the rows of [i]. *)
Lemma participate_run identity e v d :
  participate identity e v d
  = (mk_db (tbl_e d) (tbl_v d)
           (tbl_i d ++ [mk_i identity e v])
           (update_total e v (insert_or_ignore e v (tbl_p d)))
           (tbl_c d),
     Ok tt).
Proof. reflexivity. Qed.

Lemma score_run e v d :
  score e v d
  = (mk_db (tbl_e d) (tbl_v d) (tbl_i d) (tbl_p d)
           (update_total e v (insert_or_ignore e v (tbl_c d))),
     Ok tt).
Proof. reflexivity. Qed.

Lemma insert_e_cases nm d :
  (existsb (fun r => String.eqb (e_name r) nm) (tbl_e d) = true
   /\ insert_e nm d = (d, Raise IntegrityError))
  \/ (existsb (fun r => String.eqb (e_name r) nm) (tbl_e d) = false
      /\ insert_e nm d = (set_e d (tbl_e d ++ [mk_e nm None]), Ok tt)).
Proof.
  unfold insert_e. rewrite e_name_is_key.
  destruct (existsb _ (tbl_e d)); simpl; auto.
Qed.

Lemma insert_v_cases x nm d :
  (existsb (fun r => String.eqb (v_name r) x) (tbl_v d) = true
   /\ insert_v x nm d = (d, Raise IntegrityError))
  \/ (existsb (fun r => String.eqb (v_name r) x) (tbl_v d) = false
      /\ insert_v x nm d = (set_v d (tbl_v d ++ [mk_v x nm]), Ok tt)).
Proof.
  unfold insert_v. rewrite v_name_is_key.
  destruct (existsb _ (tbl_v d)); simpl; auto.
Qed.

(** A property of the tables other than [v] survives the loop of
    [set_experiment]. *)
Lemma insert_v_loop_keeps {X} (f : database -> X) nm vs :
  (forall d t, f (set_v d t) = f d) ->
  forall d, f (fst (for_each vs (fun v => insert_v v nm) d)) = f d.
Proof.
  intros Hf d.
  apply (for_each_invariant (fun d' => f d' = f d)); [| reflexivity].
  intros x s Hs.
  destruct (insert_v_cases x nm s) as [[_ ->] | [_ ->]]; simpl; [exact Hs |].
  now rewrite Hf.
Qed.

Lemma set_experiment_keeps {X} (f : database -> X) nm vs d :
  (forall d t, f (set_v d t) = f d) ->
  (forall d t, f (set_e d t) = f d) ->
  f (fst (set_experiment nm vs d)) = f d.
Proof.
  intros Hv He. unfold set_experiment, bind.
  destruct (insert_e_cases nm d) as [[_ ->] | [_ ->]]; simpl; [reflexivity |].
  rewrite (insert_v_loop_keeps f nm vs Hv). apply He.
Qed.

(** The loop of [set_experiment], when it runs to its end. *)
Lemma insert_v_loop_ok nm vs :
  forall d d',
    for_each vs (fun v => insert_v v nm) d = (d', Ok tt) ->
    d' = set_v d (tbl_v d ++ map (fun v => mk_v v nm) vs).
Proof.
  induction vs as [| x vs IH]; intros d d' H; simpl in H.
  - inversion H; subst. destruct d'; unfold set_v; simpl.
    now rewrite app_nil_r.
  - apply bind_ok_inv in H as ([] & d1 & Hx & Hrest).
    destruct (insert_v_cases x nm d) as [[_ Hc] | [_ Hc]];
      rewrite Hc in Hx; inversion Hx; subst.
    rewrite (IH _ _ Hrest). unfold set_v; simpl.
    now rewrite <- app_assoc.
Qed.

Lemma set_experiment_ok nm vs d d' :
  set_experiment nm vs d = (d', Ok tt) ->
  existsb (fun r => String.eqb (e_name r) nm) (tbl_e d) = false
  /\ d' = mk_db (tbl_e d ++ [mk_e nm None])
                (tbl_v d ++ map (fun v => mk_v v nm) vs)
                (tbl_i d) (tbl_p d) (tbl_c d).
Proof.
  unfold set_experiment. intros H.
  apply bind_ok_inv in H as ([] & d1 & He & Hloop).
  destruct (insert_e_cases nm d) as [[_ Hc] | [Hfresh Hc]];
    rewrite Hc in He; inversion He; subst.
  split; [exact Hfresh |].
  rewrite (insert_v_loop_ok _ _ _ _ Hloop). reflexivity.
Qed.

End BackendFacts.

(** ** Reachable databases *)

Module HistoryFacts.
Import SQLiteBackend History BackendFacts.

Lemma not_in_names {A} (key : A -> string) nm rows :
  existsb (fun r => String.eqb (key r) nm) rows = false ->
  ~ In nm (map key rows).
Proof.
  induction rows as [| r rows IH]; simpl; [tauto |].
  intros H. apply orb_false_iff in H as [Hr Hrows].
  apply String.eqb_neq in Hr. intros [Heq | Hin]; [congruence |].
  now apply IH.
Qed.

Lemma NoDup_snoc {A} (x : A) l : NoDup l -> ~ In x l -> NoDup (l ++ [x]).
Proof.
  intros Hl Hx. apply NoDup_rev in Hl.
  rewrite <- (rev_involutive (l ++ [x])). apply NoDup_rev.
  rewrite rev_app_distr. simpl. constructor; [| exact Hl].
  now rewrite <- in_rev.
Qed.

Lemma consistent_empty : consistent empty_db.
Proof.
  repeat split; simpl; try constructor. intros r [].
Qed.

Lemma insert_v_consistent x nm d :
  consistent d /\ In nm (map e_name (tbl_e d)) ->
  consistent (fst (insert_v x nm d))
  /\ In nm (map e_name (tbl_e (fst (insert_v x nm d)))).
Proof.
  intros [(He & Hv & Horph) Hnm].
  destruct (insert_v_cases x nm d) as [[_ ->] | [Hfresh ->]];
    unfold consistent; simpl.
  - repeat split; assumption.
  - repeat split; try assumption.
    + rewrite map_app. simpl. apply NoDup_snoc; [exact Hv |].
      now apply not_in_names.
    + intros r Hr. apply in_app_or in Hr as [Hr | [<- | []]]; auto.
Qed.

Lemma set_experiment_consistent nm vs d :
  consistent d -> consistent (fst (set_experiment nm vs d)).
Proof.
  intros Hd. unfold set_experiment.
  destruct (insert_e_cases nm d) as [[_ Hc] | [Hfresh Hc]].
  - rewrite (bind_raise_step _ _ _ _ _ Hc). exact Hd.
  - rewrite (bind_ok_step _ _ _ _ _ Hc).
    refine (proj1 (for_each_invariant
                     (fun d' => consistent d'
                                /\ In nm (map e_name (tbl_e d')))
                     _ vs _ _ _)).
    + intros x s. apply insert_v_consistent.
    + destruct Hd as (He & Hv & Horph). unfold consistent. simpl.
      rewrite map_app. simpl. repeat split.
      * apply NoDup_snoc; [exact He | now apply not_in_names].
      * exact Hv.
      * intros r Hr. apply in_or_app. left. now apply Horph.
      * apply in_or_app. right. simpl. auto.
Qed.

Lemma after_consistent d c : consistent d -> consistent (after d c).
Proof.
  intros Hd. destruct c as [nm vs | i e v | e v]; unfold after, perform.
  - now apply set_experiment_consistent.
  - rewrite participate_run. exact Hd.
  - rewrite score_run. exact Hd.
Qed.

Lemma fold_after_consistent cs :
  forall d, consistent d -> consistent (fold_left after cs d).
Proof.
  induction cs as [| c cs IH]; intros d Hd; simpl; [exact Hd |].
  apply IH, after_consistent, Hd.
Qed.

Lemma reachable_consistent d : reachable d -> consistent d.
Proof.
  intros [cs <-]. apply fold_after_consistent, consistent_empty.
Qed.

(** A counter row exists only where a call wrote it. *)
Lemma after_keeps_p e v c d :
  participates_in e v c = false ->
  existsb (counter_at e v) (tbl_p (after d c))
  = existsb (counter_at e v) (tbl_p d).
Proof.
  intros Hc. destruct c as [nm vs | i e' v' | e' v']; unfold after, perform.
  - now rewrite (set_experiment_keeps tbl_p).
  - rewrite participate_run. simpl in *.
    rewrite CounterFacts.existsb_update.
    now apply CounterFacts.existsb_insert_other.
  - rewrite score_run. reflexivity.
Qed.

Lemma after_keeps_c e v c d :
  scores e v c = false ->
  existsb (counter_at e v) (tbl_c (after d c))
  = existsb (counter_at e v) (tbl_c d).
Proof.
  intros Hc. destruct c as [nm vs | i e' v' | e' v']; unfold after, perform.
  - now rewrite (set_experiment_keeps tbl_c).
  - rewrite participate_run. reflexivity.
  - rewrite score_run. simpl in *.
    rewrite CounterFacts.existsb_update.
    now apply CounterFacts.existsb_insert_other.
Qed.

Lemma fold_keeps_absent (tbl : database -> list counter_row)
      (writes : call -> bool) e v :
  (forall c d, writes c = false ->
               existsb (counter_at e v) (tbl (after d c))
               = existsb (counter_at e v) (tbl d)) ->
  forall cs d,
    Forall (fun c => writes c = false) cs ->
    existsb (counter_at e v) (tbl d) = false ->
    existsb (counter_at e v) (tbl (fold_left after cs d)) = false.
Proof.
  intros Hstep cs. induction cs as [| c cs IH]; intros d Hcs Hd; simpl.
  - exact Hd.
  - inversion Hcs; subst. apply IH; [assumption |].
    now rewrite Hstep.
Qed.

End HistoryFacts.

(* ------------------------------------------------------------------ *)
(** ** Calls, one at a time *)

Module LedgerFacts.
Import SQLiteBackend History BackendFacts HistoryFacts Ledger.

Lemma in_names {A} (key : A -> string) nm rows :
  existsb (fun r => String.eqb (key r) nm) rows = true <->
  In nm (map key rows).
Proof.
  rewrite existsb_exists, in_map_iff. split.
  - intros (r & Hr & Heq). apply String.eqb_eq in Heq. eauto.
  - intros (r & Heq & Hr). exists r. split; [exact Hr |].
    now apply String.eqb_eq.
Qed.

Lemma names_absent {A} (key : A -> string) nm rows :
  ~ In nm (map key rows) ->
  existsb (fun r => String.eqb (key r) nm) rows = false.
Proof.
  intros H. destruct (existsb _ rows) eqn:Hex; [| reflexivity].
  now apply in_names in Hex.
Qed.

Lemma set_v_same d : set_v d (tbl_v d ++ []) = d.
Proof. destruct d. unfold set_v. simpl. now rewrite app_nil_r. Qed.

Lemma for_each_app {S A} (body : A -> M S unit) xs ys s :
  for_each (xs ++ ys) body s
  = (for_each xs body ;; for_each ys body) s.
Proof.
  revert s. induction xs as [| x xs IH]; intros s; simpl.
  - reflexivity.
  - unfold bind in *. destruct (body x s) as [s1 [[] | err]].
    + apply IH.
    + reflexivity.
Qed.

(** The loop of [set_experiment] writes a prefix of the variants and
    nothing else. *)
Lemma insert_v_loop_shape nm vs :
  forall d, exists k,
    k <= length vs
    /\ fst (for_each vs (fun v => insert_v v nm) d)
       = set_v d (tbl_v d ++ map (fun v => mk_v v nm) (firstn k vs)).
Proof.
  induction vs as [| x vs IH]; intros d.
  - exists 0. simpl. now rewrite set_v_same.
  - simpl. unfold bind.
    destruct (insert_v_cases x nm d) as [[_ ->] | [_ ->]].
    + exists 0. simpl. split; [lia | now rewrite set_v_same].
    + destruct (IH (set_v d (tbl_v d ++ [mk_v x nm]))) as (k & Hk & ->).
      exists (S k). split; [simpl; lia |].
      unfold set_v. simpl. now rewrite <- app_assoc.
Qed.

(** The loop runs to its end on fresh, distinct names. *)
Lemma insert_v_loop_fresh nm vs :
  forall d,
    NoDup vs ->
    (forall x, In x vs -> ~ In x (v_names d)) ->
    for_each vs (fun v => insert_v v nm) d
    = (set_v d (tbl_v d ++ map (fun v => mk_v v nm) vs), Ok tt).
Proof.
  induction vs as [| x vs IH]; intros d Hnd Hfresh.
  - simpl. now rewrite set_v_same.
  - inversion Hnd as [| ? ? Hx Hvs]; subst. simpl.
    destruct (insert_v_cases x nm d) as [[Hin _] | [_ Hc]].
    + apply in_names in Hin. exfalso. apply (Hfresh x); simpl; auto.
    + rewrite (bind_ok_step _ _ _ _ _ Hc). rewrite IH; [| exact Hvs |].
      * unfold set_v. simpl. now rewrite <- app_assoc.
      * intros y Hy. unfold v_names, set_v. simpl.
        rewrite map_app. simpl. intros Hin.
        apply in_app_or in Hin as [Hin | [<- | []]].
        -- apply (Hfresh y); simpl; auto.
        -- contradiction.
Qed.

(** What a call of [set_experiment] leaves, returned or raised. *)
Lemma after_set_experiment d nm vs :
  (existsb (fun r => String.eqb (e_name r) nm) (tbl_e d) = true
   /\ after d (SetExperiment nm vs) = d)
  \/ (existsb (fun r => String.eqb (e_name r) nm) (tbl_e d) = false
      /\ exists k,
          k <= length vs
          /\ after d (SetExperiment nm vs)
             = mk_db (tbl_e d ++ [mk_e nm None])
                     (tbl_v d ++ map (fun v => mk_v v nm) (firstn k vs))
                     (tbl_i d) (tbl_p d) (tbl_c d)).
Proof.
  unfold after, perform, set_experiment.
  destruct (insert_e_cases nm d) as [[Hin Hc] | [Hfresh Hc]].
  - left. split; [exact Hin |]. now rewrite (bind_raise_step _ _ _ _ _ Hc).
  - right. split; [exact Hfresh |].
    rewrite (bind_ok_step _ _ _ _ _ Hc).
    destruct (insert_v_loop_shape nm vs (set_e d (tbl_e d ++ [mk_e nm None])))
      as (k & Hk & Hshape).
    exists k. split; [exact Hk |]. rewrite Hshape. reflexivity.
Qed.

Lemma after_tbl_i d c :
  tbl_i (after d c)
  = tbl_i d ++ match c with
               | Participate i e v => [mk_i i e v]
               | _ => []
               end.
Proof.
  destruct c as [nm vs | i e v | e v]; unfold after, perform.
  - rewrite (set_experiment_keeps tbl_i) by reflexivity.
    now rewrite app_nil_r.
  - now rewrite participate_run.
  - rewrite score_run. simpl. now rewrite app_nil_r.
Qed.

Lemma fetchone_filter_app {A} (f : A -> bool) xs ys :
  fetchone (filter f (xs ++ ys))
  = match fetchone (filter f xs) with
    | Some r => Some r
    | None => fetchone (filter f ys)
    end.
Proof.
  rewrite filter_app. destruct (filter f xs); reflexivity.
Qed.

Lemma fetchone_filter_some {A} (f : A -> bool) rows r :
  fetchone (filter f rows) = Some r -> In r rows /\ f r = true.
Proof.
  intros H. apply filter_In. destruct (filter f rows) as [| r0 l] eqn:Hf.
  - discriminate.
  - inversion H; subst. now left.
Qed.

Lemma fetchone_filter_none {A} (f : A -> bool) rows :
  existsb f rows = false -> fetchone (filter f rows) = None.
Proof.
  induction rows as [| r rows IH]; simpl; [reflexivity |].
  destruct (f r); simpl; [discriminate | exact IH].
Qed.

Lemma fetchone_filter_found {A} (f : A -> bool) rows :
  existsb f rows = true -> exists r, fetchone (filter f rows) = Some r.
Proof.
  induction rows as [| r rows IH]; simpl; [discriminate |].
  destruct (f r); simpl; [eauto | exact IH].
Qed.

Lemma get_experiment_eval nm vs d :
  get_experiment nm vs d
  = (d, Ok (option_map (_factory d)
                       (fetchone
                          (filter (fun r => String.eqb (e_name r) nm)
                                  (tbl_e d))))).
Proof.
  unfold get_experiment, query. now destruct (fetchone _).
Qed.

Lemma get_variant_eval identity e d :
  get_variant identity e d
  = (d, Ok (option_map i_variant
                       (fetchone
                          (filter (fun r =>
                                     String.eqb (i_identity r) identity
                                     && String.eqb (i_experiment_name r) e)
                                  (tbl_i d))))).
Proof.
  unfold get_variant, query. now destruct (fetchone _).
Qed.

(** Rows written for another experiment do not show among the variants
    of this one. *)
Lemma foreign_rows nm other xs :
  other <> nm ->
  filter (fun v => String.eqb (v_experiment_name v) nm)
         (map (fun x => mk_v x other) xs) = [].
Proof.
  intros Hne. induction xs as [| x xs IH]; simpl; [reflexivity |].
  now destruct (String.eqb_spec other nm) as [Heq | _]; [congruence |].
Qed.

Lemma own_rows nm xs :
  map v_name
      (filter (fun v => String.eqb (v_experiment_name v) nm)
              (map (fun x => mk_v x nm) xs))
  = xs.
Proof.
  induction xs as [| x xs IH]; simpl; [reflexivity |].
  rewrite String.eqb_refl. simpl. now rewrite IH.
Qed.

(** In a consistent database no row of [v] names an experiment that
    [e] does not have. *)
Lemma no_orphans d nm :
  consistent d ->
  existsb (fun r => String.eqb (e_name r) nm) (tbl_e d) = false ->
  filter (fun v => String.eqb (v_experiment_name v) nm) (tbl_v d) = [].
Proof.
  intros (_ & _ & Horph) Hfresh.
  apply not_in_names in Hfresh.
  induction (tbl_v d) as [| r rows IH]; simpl; [reflexivity |].
  destruct (String.eqb_spec (v_experiment_name r) nm) as [Heq | _].
  - exfalso. apply Hfresh. rewrite <- Heq. apply Horph. simpl. auto.
  - apply IH. intros r0 Hr0. apply Horph. simpl. auto.
Qed.

Lemma existsb_e_after d c nm :
  existsb (fun r => String.eqb (e_name r) nm) (tbl_e (after d c))
  = existsb (fun r => String.eqb (e_name r) nm) (tbl_e d) || sets_name nm c.
Proof.
  destruct c as [n vs | i e v | e v].
  - destruct (after_set_experiment d n vs)
      as [[Hin ->] | [Hfresh (k & _ & ->)]]; simpl.
    + destruct (String.eqb_spec n nm) as [-> | _].
      * now rewrite Hin.
      * now rewrite orb_false_r.
    + rewrite existsb_app. simpl. now rewrite orb_false_r.
  - unfold after, perform. rewrite participate_run. simpl.
    now rewrite orb_false_r.
  - unfold after, perform. rewrite score_run. simpl.
    now rewrite orb_false_r.
Qed.

Lemma existsb_e_fold nm cs :
  forall d,
    existsb (fun r => String.eqb (e_name r) nm)
            (tbl_e (fold_left after cs d))
    = existsb (fun r => String.eqb (e_name r) nm) (tbl_e d)
      || existsb (sets_name nm) cs.
Proof.
  induction cs as [| c cs IH]; intros d; simpl.
  - now rewrite orb_false_r.
  - rewrite IH, existsb_e_after. now rewrite orb_assoc.
Qed.

Lemma started_on_after d c :
  Forall (fun r => e_started_on r = None) (tbl_e d) ->
  Forall (fun r => e_started_on r = None) (tbl_e (after d c)).
Proof.
  intros Hd. destruct c as [n vs | i e v | e v].
  - destruct (after_set_experiment d n vs)
      as [[_ ->] | [_ (k & _ & ->)]]; simpl; [exact Hd |].
    apply Forall_app. split; [exact Hd |]. now constructor.
  - unfold after, perform. now rewrite participate_run.
  - unfold after, perform. now rewrite score_run.
Qed.

Lemma started_on_fold cs :
  forall d,
    Forall (fun r => e_started_on r = None) (tbl_e d) ->
    Forall (fun r => e_started_on r = None) (tbl_e (fold_left after cs d)).
Proof.
  induction cs as [| c cs IH]; intros d Hd; simpl; [exact Hd |].
  apply IH, started_on_after, Hd.
Qed.

Lemma NoDup_map_inj {A B} (f : A -> B) l a b :
  NoDup (map f l) -> In a l -> In b l -> f a = f b -> a = b.
Proof.
  induction l as [| x l IH]; simpl; intros Hnd Ha Hb Heq; [tauto |].
  inversion Hnd as [| ? ? Hx Hl]; subst.
  destruct Ha as [-> | Ha]; destruct Hb as [-> | Hb]; auto.
  - exfalso. apply Hx. rewrite Heq. now apply in_map.
  - exfalso. apply Hx. rewrite <- Heq. now apply in_map.
Qed.

Lemma NoDup_map_filter {A B} (f : A -> B) (p : A -> bool) l :
  NoDup (map f l) -> NoDup (map f (filter p l)).
Proof.
  induction l as [| x l IH]; simpl; intros Hnd; [constructor |].
  inversion Hnd as [| ? ? Hx Hl]; subst.
  destruct (p x); simpl; [| auto].
  constructor; [| auto].
  intros Hin. apply Hx. apply in_map_iff in Hin as (y & Hy & Hin).
  apply filter_In in Hin as [Hin _]. rewrite <- Hy. now apply in_map.
Qed.

(** *** Counters under a call *)

Lemma filter_update_other e v e' v' t :
  String.eqb e' e && String.eqb v' v = false ->
  filter (counter_at e v) (update_total e' v' t)
  = filter (counter_at e v) t.
Proof.
  intros Hne. unfold update_total.
  induction t as [| r t IH]; simpl; [reflexivity |].
  destruct (counter_at e' v' r) eqn:Hr'.
  - rewrite CounterFacts.counter_at_bump.
    destruct (counter_at e v r) eqn:Hr.
    + exfalso. unfold counter_at in Hr, Hr'.
      apply andb_true_iff in Hr as [He Hv].
      apply andb_true_iff in Hr' as [He' Hv'].
      apply String.eqb_eq in He, Hv, He', Hv'. subst.
      now rewrite !String.eqb_refl in Hne.
    + exact IH.
  - destruct (counter_at e v r); now rewrite IH.
Qed.

Lemma counted_other e v e' v' t :
  String.eqb e' e && String.eqb v' v = false ->
  counted (update_total e' v' (insert_or_ignore e' v' t)) e v
  = counted t e v.
Proof.
  intros Hne. unfold counted, select_total.
  rewrite filter_update_other by exact Hne.
  unfold insert_or_ignore.
  destruct (existsb (counter_at e' v') t); [reflexivity |].
  rewrite filter_app. simpl. unfold counter_at at 2. simpl.
  rewrite Hne. now rewrite app_nil_r.
Qed.

Lemma counted_same e v e' v' t :
  String.eqb e' e && String.eqb v' v = true ->
  counted (update_total e' v' (insert_or_ignore e' v' t)) e v
  = plus_one (counted t e v).
Proof.
  intros Heq. apply andb_true_iff in Heq as [He Hv].
  apply String.eqb_eq in He, Hv. subst.
  apply CounterFacts.bumped_total.
Qed.

Lemma counted_p_after d c e v :
  counted (tbl_p (after d c)) e v
  = if participates_in e v c
    then plus_one (counted (tbl_p d) e v)
    else counted (tbl_p d) e v.
Proof.
  destruct c as [nm vs | i e' v' | e' v']; unfold after, perform.
  - now rewrite (set_experiment_keeps tbl_p) by reflexivity.
  - rewrite participate_run. simpl.
    destruct (String.eqb e' e && String.eqb v' v) eqn:Hk.
    + now apply counted_same.
    + now apply counted_other.
  - now rewrite score_run.
Qed.

Lemma counted_c_after d c e v :
  counted (tbl_c (after d c)) e v
  = if scores e v c
    then plus_one (counted (tbl_c d) e v)
    else counted (tbl_c d) e v.
Proof.
  destruct c as [nm vs | i e' v' | e' v']; unfold after, perform.
  - now rewrite (set_experiment_keeps tbl_c) by reflexivity.
  - now rewrite participate_run.
  - rewrite score_run. simpl.
    destruct (String.eqb e' e && String.eqb v' v) eqn:Hk.
    + now apply counted_same.
    + now apply counted_other.
Qed.

(** A cell that started at 0 and took [k] increments holds [k], and
    [2^63] once [k] has reached it. *)
Lemma plus_one_saturates k :
  (0 <= k)%Z ->
  plus_one (Z.min k (int64_max + 1)) = Z.min (k + 1) (int64_max + 1).
Proof.
  intros Hk. unfold plus_one, fits_int64, int64_min, int64_max.
  destruct (Z.leb_spec (-9223372036854775808)
                       (Z.min k (9223372036854775807 + 1)));
    destruct (Z.leb_spec (Z.min k (9223372036854775807 + 1))
                         9223372036854775807);
    simpl; lia.
Qed.

Lemma fold_saturates (f : database -> Z) (p : call -> bool) :
  (forall d c, f (after d c) = if p c then plus_one (f d) else f d) ->
  forall cs d k,
    (0 <= k)%Z ->
    f d = Z.min k (int64_max + 1) ->
    f (fold_left after cs d)
    = Z.min (k + count_calls p cs) (int64_max + 1).
Proof.
  intros Hstep. unfold count_calls.
  induction cs as [| c cs IH]; intros d k Hk Hd; simpl.
  - now rewrite Z.add_0_r.
  - destruct (p c) eqn:Hc.
    + rewrite (IH _ (k + 1)%Z); [| lia |].
      * f_equal. simpl length. lia.
      * rewrite Hstep, Hc, Hd. now apply plus_one_saturates.
    + rewrite (IH _ k); [reflexivity | lia |].
      now rewrite Hstep, Hc.
Qed.

(** A quantity that each call moves by one or leaves, summed over a
    history. *)
Lemma fold_counts (f : database -> Z) (p : call -> bool) :
  (forall d c, f (after d c) = (f d + if p c then 1 else 0)%Z) ->
  forall cs d, f (fold_left after cs d) = (f d + count_calls p cs)%Z.
Proof.
  intros Hstep. unfold count_calls.
  induction cs as [| c cs IH]; intros d; simpl.
  - lia.
  - rewrite IH, Hstep. destruct (p c); simpl length; lia.
Qed.

Lemma assigned_to_after d c e v :
  Z.of_nat (length (assigned_to e v (after d c)))
  = (Z.of_nat (length (assigned_to e v d))
     + if participates_in e v c then 1 else 0)%Z.
Proof.
  unfold assigned_to. rewrite after_tbl_i, filter_app, length_app.
  destruct c as [nm vs | i e' v' | e' v']; simpl; try lia.
  destruct (String.eqb e' e && String.eqb v' v); simpl; lia.
Qed.

(** *** Assignments under a call *)

Lemma variant_after d c identity e :
  option_map i_variant
    (fetchone (filter (fun r => String.eqb (i_identity r) identity
                                && String.eqb (i_experiment_name r) e)
                      (tbl_i (after d c))))
  = match option_map i_variant
            (fetchone
               (filter (fun r => String.eqb (i_identity r) identity
                                 && String.eqb (i_experiment_name r) e)
                       (tbl_i d)))
    with
    | Some v => Some v
    | None => assigns identity e c
    end.
Proof.
  rewrite after_tbl_i, fetchone_filter_app.
  destruct (fetchone (filter _ (tbl_i d))) as [r |]; [reflexivity |].
  destruct c as [nm vs | i e' v' | e' v']; simpl; try reflexivity.
  now destruct (String.eqb i identity && String.eqb e' e).
Qed.

Lemma variant_fold identity e cs :
  forall d,
    option_map i_variant
      (fetchone (filter (fun r => String.eqb (i_identity r) identity
                                  && String.eqb (i_experiment_name r) e)
                        (tbl_i (fold_left after cs d))))
    = match option_map i_variant
              (fetchone
                 (filter (fun r => String.eqb (i_identity r) identity
                                   && String.eqb (i_experiment_name r) e)
                         (tbl_i d)))
      with
      | Some v => Some v
      | None => first_participation identity e cs
      end.
Proof.
  induction cs as [| c cs IH]; intros d; simpl.
  - now destruct (option_map _ _).
  - rewrite IH, variant_after.
    destruct (option_map _ _); [reflexivity |].
    now destruct (assigns identity e c).
Qed.

(** An experiment that the lookup finds is found unchanged after any
    call. *)
Lemma experiment_kept_after d c nm vs ws ex :
  get_experiment nm vs d = (d, Ok (Some ex)) ->
  get_experiment nm ws (after d c) = (after d c, Ok (Some ex)).
Proof.
  rewrite !get_experiment_eval. intros H.
  destruct (fetchone (filter _ (tbl_e d))) as [row |] eqn:Hrow;
    [| discriminate].
  simpl in H. inversion H as [Hex]. clear H.
  destruct c as [n vs' | i e v | e v].
  - destruct (after_set_experiment d n vs')
      as [[_ ->] | [Hfresh (k & _ & ->)]].
    + now rewrite Hrow.
    + simpl. rewrite fetchone_filter_app, Hrow. simpl.
      unfold _factory. simpl. rewrite filter_app, foreign_rows.
      * now rewrite app_nil_r.
      * apply fetchone_filter_some in Hrow as [Hin _]. intros ->.
        apply not_in_names in Hfresh. apply Hfresh. now apply in_map.
  - unfold after, perform. rewrite participate_run. simpl.
    now rewrite Hrow.
  - unfold after, perform. rewrite score_run. simpl. now rewrite Hrow.
Qed.




(** The loop of [set_experiment] only runs to its end on fresh,
    distinct names, and only fails by a key conflict. *)
Lemma insert_v_loop_returns nm vs :
  forall d d',
    for_each vs (fun v => insert_v v nm) d = (d', Ok tt) ->
    NoDup vs /\ forall x, In x vs -> ~ In x (v_names d).
Proof.
  induction vs as [| x vs IH]; intros d d' H.
  - split; [constructor | intros x []].
  - simpl in H. apply bind_ok_inv in H as ([] & d1 & Hx & Hrest).
    destruct (insert_v_cases x nm d) as [[_ Hc] | [Hfresh Hc]];
      rewrite Hc in Hx; inversion Hx; subst.
    apply IH in Hrest as [Hnd Hvs]. apply not_in_names in Hfresh.
    assert (Hlater : forall y, In y vs -> y <> x /\ ~ In y (v_names d)).
    { intros y Hy. specialize (Hvs y Hy). unfold v_names, set_v in Hvs.
      simpl in Hvs. rewrite map_app in Hvs. simpl in Hvs.
      split; intros Hbad; apply Hvs, in_or_app; [right | left];
        simpl; auto. }
    split.
    + constructor; [| exact Hnd]. intros Hin.
      destruct (Hlater x Hin) as [Hne _]. now apply Hne.
    + intros y [<- | Hy]; [exact Hfresh | now apply Hlater].
Qed.

Lemma insert_v_loop_outcome nm vs :
  forall d,
    snd (for_each vs (fun v => insert_v v nm) d) = Ok tt
    \/ snd (for_each vs (fun v => insert_v v nm) d) = Raise IntegrityError.
Proof.
  induction vs as [| x vs IH]; intros d; simpl; [now left |].
  unfold bind. destruct (insert_v_cases x nm d) as [[_ ->] | [_ ->]].
  - now right.
  - apply IH.
Qed.

End LedgerFacts.

(* ------------------------------------------------------------------ *)
(** * The store *)

Module StoreProperties.
Import SQLiteBackend History BackendFacts HistoryFacts.

Lemma filter_nothing {A} (f : A -> bool) rows :
  existsb f rows = false -> filter f rows = [].
Proof.
  induction rows as [| r rows IH]; simpl; [reflexivity |].
  destruct (f r); simpl; [discriminate | exact IH].
Qed.

Lemma fetchone_some_exists {A} (f : A -> bool) rows r :
  fetchone (filter f rows) = Some r -> existsb f rows = true.
Proof.
  induction rows as [| r0 rows IH]; simpl; [discriminate |].
  destruct (f r0); simpl; [reflexivity | exact IH].
Qed.

(** Every call of [participate] appends a row to [i]. *)
Lemma participate_appends_row identity e v d :
  tbl_i (after d (Participate identity e v))
  = tbl_i d ++ [mk_i identity e v].
Proof. unfold after, perform. now rewrite participate_run. Qed.

(** C1, on the code: two calls of [participate] for one visitor and
    one experiment on a new store leave two rows for that pair in the
    assignment table and a participation count of 2 -- the second call
    is counted and recorded again, where the store contract wants it
    absorbed. *)
Theorem second_participate_is_counted_again :
  let d2 := replay [Participate "visitor" "show_promo" "True";
                    Participate "visitor" "show_promo" "True"] in
  participants "show_promo" "True" d2 = (d2, Ok 2%Z)
  /\ length (assignments "visitor" "show_promo" d2) = 2.
Proof. split; reflexivity. Qed.

(** C3: [set_experiment] for a name that the store already has raises
    the key conflict of table [e] before anything is written: the
    database is the one before the call, so the experiment first
    stored, with its variant list, is what a lookup still returns. *)
Theorem set_experiment_existing_name d nm vs expected ex :
  get_experiment nm expected d = (d, Ok (Some ex)) ->
  set_experiment nm vs d = (d, Raise IntegrityError)
  /\ get_experiment nm expected (fst (set_experiment nm vs d))
     = (fst (set_experiment nm vs d), Ok (Some ex)).
Proof.
  intros Hget.
  assert (Hraise : set_experiment nm vs d = (d, Raise IntegrityError)).
  { unfold set_experiment.
    destruct (insert_e_cases nm d) as [[_ Hc] | [Hfresh Hc]].
    - now rewrite (bind_raise_step _ _ _ _ _ Hc).
    - exfalso. unfold get_experiment, query in Hget.
      destruct (fetchone _) as [row |] eqn:Hrow; [| discriminate].
      apply fetchone_some_exists in Hrow. congruence. }
  split; [exact Hraise |]. rewrite Hraise. exact Hget.
Qed.

Lemma set_experiment_existing_name_witness :
  set_experiment "primary_color" ["blue"] Contract.primary_color_db
  = (Contract.primary_color_db, Raise IntegrityError)
  /\ get_experiment "primary_color" ["blue"]
       (fst (set_experiment "primary_color" ["blue"]
                            Contract.primary_color_db))
     = (fst (set_experiment "primary_color" ["blue"]
                            Contract.primary_color_db),
        Ok (Some (mk_experiment "primary_color" None ["red"; "green"]))).
Proof.
  apply (set_experiment_existing_name
           Contract.primary_color_db "primary_color" ["blue"] ["blue"]).
  reflexivity.
Defined.

(** The rows that [set_experiment] writes to [v] read back as the
    variant list, in order. *)
Lemma own_variants nm vs :
  map v_name
      (filter (fun v => String.eqb (v_experiment_name v) nm)
              (map (fun v => mk_v v nm) vs))
  = vs.
Proof.
  induction vs as [| x vs IH]; simpl; [reflexivity |].
  rewrite String.eqb_refl. simpl. now rewrite IH.
Qed.

(** C4: on a database reached by the backend's own methods, once
    [set_experiment name variants] has returned, [get_experiment]
    finds an experiment of that name whose variants are the given list
    in the given order.  (The call only returns when the name was
    absent: see [set_experiment_ok].) *)
Theorem set_then_get_experiment d nm vs d' :
  reachable d ->
  get_experiment nm vs d = (d, Ok None) ->
  set_experiment nm vs d = (d', Ok tt) ->
  get_experiment nm vs d' = (d', Ok (Some (mk_experiment nm None vs))).
Proof.
  intros Hreach _ Hset.
  apply reachable_consistent in Hreach as (_ & _ & Horph).
  apply set_experiment_ok in Hset as [Hfresh ->].
  unfold get_experiment, query, _factory. simpl.
  rewrite filter_app, (filter_nothing _ _ Hfresh). simpl.
  rewrite String.eqb_refl. simpl.
  rewrite filter_app, map_app, own_variants.
  assert (Hold : filter (fun v => String.eqb (v_experiment_name v) nm)
                        (tbl_v d) = []).
  { apply filter_nothing. apply not_in_names in Hfresh.
    destruct (existsb _ (tbl_v d)) eqn:Hex; [| reflexivity].
    apply existsb_exists in Hex as (r & Hr & Heq).
    apply String.eqb_eq in Heq. subst nm. now apply Horph in Hr. }
  rewrite Hold. reflexivity.
Qed.

Lemma set_then_get_experiment_witness :
  get_experiment "primary_color" ["red"; "green"] Contract.primary_color_db
  = (Contract.primary_color_db,
     Ok (Some (mk_experiment "primary_color" None ["red"; "green"]))).
Proof.
  apply (set_then_get_experiment empty_db).
  - exists []. reflexivity.
  - reflexivity.
  - reflexivity.
Defined.

(** C5, as the code has it: a call of [participate] (resp. [score])
    moves what [participants] (resp. [conversions]) returns for the pair
    from [n] to [n + 1], with or without a counter row to start from, as
    long as [n] fits the 64-bit INTEGER cell; a count beyond that is a
    REAL which the UPDATE leaves as it is. *)
Theorem counters_increase_by_one_while_they_fit d identity e v n m :
  participants e v d = (d, Ok n) ->
  conversions e v d = (d, Ok m) ->
  participants e v (after d (Participate identity e v))
  = (after d (Participate identity e v),
     Ok (if fits_int64 n then n + 1 else n)%Z)
  /\ conversions e v (after d (Score e v))
     = (after d (Score e v), Ok (if fits_int64 m then m + 1 else m)%Z).
Proof.
  unfold after, perform. rewrite participate_run, score_run.
  unfold participants, conversions, query. simpl.
  intros Hn Hm. inversion Hn as [Hn']. inversion Hm as [Hm'].
  now rewrite !CounterFacts.bumped_total.
Qed.

Lemma counters_increase_by_one_while_they_fit_witness :
  participants "primary_color" "red"
    (after Contract.primary_color_db
           (Participate "visitor" "primary_color" "red"))
  = (after Contract.primary_color_db
           (Participate "visitor" "primary_color" "red"),
     Ok 1%Z)
  /\ conversions "primary_color" "red"
       (after Contract.primary_color_db (Score "primary_color" "red"))
     = (after Contract.primary_color_db (Score "primary_color" "red"),
        Ok 1%Z).
Proof.
  apply (counters_increase_by_one_while_they_fit
           Contract.primary_color_db "visitor" "primary_color" "red"
           0%Z 0%Z);
    reflexivity.
Defined.

(** C5, as the store contract words it, fails on a counter that has
    left the 64-bit range: with [2^63] participations on record one more
    call of [participate] leaves [participants] at [2^63]. *)
Lemma every_call_adds_one_fails : ~ Contract.every_call_adds_one.
Proof.
  intros H.
  destruct (H Contract.full_counter_db "visitor" "show_promo" "True")
    as [Hp _].
  vm_compute in Hp. discriminate Hp.
Qed.

(** C6: after any history of calls from the freshly created tables in
    which [participate] (resp. [score]) was never called for the pair,
    [participants] (resp. [conversions]) returns 0 for it, without
    raising. *)
Theorem unwritten_counters_read_zero cs e v :
  (Forall (fun c => participates_in e v c = false) cs ->
   participants e v (replay cs) = (replay cs, Ok 0%Z))
  /\
  (Forall (fun c => scores e v c = false) cs ->
   conversions e v (replay cs) = (replay cs, Ok 0%Z)).
Proof.
  split; intros Hcs; unfold participants, conversions, query, replay.
  - rewrite CounterFacts.select_absent; [reflexivity |].
    apply (fold_keeps_absent tbl_p (participates_in e v));
      [intros; now apply after_keeps_p | exact Hcs | reflexivity].
  - rewrite CounterFacts.select_absent; [reflexivity |].
    apply (fold_keeps_absent tbl_c (scores e v));
      [intros; now apply after_keeps_c | exact Hcs | reflexivity].
Qed.

Lemma unwritten_counters_read_zero_witness :
  let cs := [SetExperiment "primary_color" ["red"; "green"];
             Participate "visitor" "primary_color" "red";
             Score "primary_color" "red"] in
  participants "primary_color" "green" (replay cs) = (replay cs, Ok 0%Z)
  /\ conversions "primary_color" "green" (replay cs) = (replay cs, Ok 0%Z).
Proof.
  intros cs.
  destruct (unwritten_counters_read_zero cs "primary_color" "green")
    as [Hp Hc].
  split; [apply Hp | apply Hc]; repeat constructor.
Defined.

(** C7, on the code: [get_experiment] is documented to retrieve an
    experiment by its name and variants, and never looks at the variant
    names that it is handed.  On a store that holds [primary_color] with
    the variants [red] and [green], a lookup that expects the single
    variant [blue] is handed the stored experiment and no error; in
    general the result is the same for any two lists of expected
    names. *)
Theorem lookup_ignores_expected_names :
  get_experiment "primary_color" ["blue"] Contract.primary_color_db
  = (Contract.primary_color_db,
     Ok (Some (mk_experiment "primary_color" None ["red"; "green"])))
  /\ forall d nm expected expected',
      get_experiment nm expected d = get_experiment nm expected' d.
Proof. split; reflexivity. Qed.

End StoreProperties.

(* ------------------------------------------------------------------ *)
(** * Construction *)

Module ConstructorProperties.
Import Constructor.

(** C10: whatever is passed as [db], [__init__] leaves by an
    exception while the instance still has no connection, so before
    any CREATE TABLE is executed.  Under Python 3 the name
    [basestring] is undefined; under Python 2 [isinstance] rejects a
    second argument that is not a class (a connection string and a
    connection are not), and for a class the instance either cannot be
    connected or has no [_conn] attribute. *)
Theorem construction_always_raises open_database py db table_prefix :
  __init__ open_database py db table_prefix new_backend
  = (new_backend,
     Raise match py with
           | Python3 => NameError
           | Python2 =>
               match db with
               | OClass c =>
                   if issubclass cls_type c then TypeError
                   else AttributeError
               | _ => TypeError
               end
           end).
Proof.
  destruct py; [| reflexivity].
  destruct db as [s | c | | z | c]; try reflexivity.
  destruct c; reflexivity.
Qed.

End ConstructorProperties.

(* ------------------------------------------------------------------ *)
(** * The engine *)

Module EngineProperties.
Import SQLiteBackend History BackendFacts LedgerFacts Engine Visits.

(** *** parse *)

Lemma weights_of_spec raw ws :
  weights_of raw = Some ws -> map Some ws = map def_weight raw.
Proof.
  revert ws. induction raw as [| x raw IH]; intros ws H; simpl in *.
  - now inversion H.
  - destruct (def_weight x) as [w |]; [| discriminate].
    destruct (weights_of raw) as [ws' |]; [| discriminate].
    inversion H; subst. simpl. now rewrite (IH ws').
Qed.

Lemma parse_keeps_order raw names values weights :
  raw <> [] ->
  parse raw = Ok (names, values, weights) ->
  names = map def_name raw
  /\ values = map def_value raw
  /\ map Some weights = map def_weight raw.
Proof.
  intros Hne H. destruct raw as [| x raw]; [congruence |].
  unfold parse in H.
  destruct (negb (same_arity (x :: raw))); [discriminate |].
  destruct (Nat.ltb _ 2); [discriminate |].
  destruct (negb (unique _)); [discriminate |].
  destruct (weights_of (x :: raw)) as [ws |] eqn:Hw; [| discriminate].
  inversion H; subst. repeat split. now apply weights_of_spec.
Qed.

(** C8: on the weighted scenario [parse] yields the three sequences of
    the test, and on every non-empty input that it accepts the names,
    values and weights are those of the definitions, position by
    position in input order. *)
Theorem parse_weighted_scenario :
  parse [Triple "red" (VStr "#F00") (VInt 1);
         Triple "green" (VStr "#0F0") (VInt 2);
         Triple "blue" (VStr "#00F") (VInt 5)]
  = Ok (["red"; "green"; "blue"],
        [VStr "#F00"; VStr "#0F0"; VStr "#00F"],
        [1%Z; 2%Z; 5%Z])
  /\ forall raw names values weights,
      raw <> [] ->
      parse raw = Ok (names, values, weights) ->
      names = map def_name raw
      /\ values = map def_value raw
      /\ map Some weights = map def_weight raw.
Proof. split; [reflexivity | exact parse_keeps_order]. Qed.

Lemma parse_weighted_scenario_witness :
  let raw := [Pair "red" (VStr "#F00"); Pair "green" (VStr "#0F0")] in
  ["red"; "green"] = map def_name raw
  /\ [VStr "#F00"; VStr "#0F0"] = map def_value raw
  /\ map Some [1%Z; 1%Z] = map def_weight raw.
Proof.
  intros raw.
  apply (proj2 parse_weighted_scenario raw); [discriminate | reflexivity].
Defined.

(** *** The sampler *)

Lemma cumulative_length acc ws : length (cumulative acc ws) = length ws.
Proof.
  revert acc. induction ws as [| w ws IH]; intros acc; simpl;
    [reflexivity | now rewrite IH].
Qed.


Lemma middle lo hi : lo <= hi -> (lo + hi) / 2 = lo + (hi - lo) / 2.
Proof.
  intros H. replace (lo + hi) with ((hi - lo) + lo * 2) by lia.
  rewrite Nat.div_add by lia. lia.
Qed.

Lemma probes_half m n : 0 < n -> m <= n / 2 -> S (probes m) <= probes n.
Proof.
  intros Hn Hm. unfold probes.
  destruct n as [| n']; [lia |]. destruct m as [| m']; [lia |].
  apply le_n_S.
  assert (Hhalf : 0 < S n' / 2) by lia.
  transitivity (S (Nat.log2 (S n' / 2))).
  - apply le_n_S, Nat.log2_le_mono, Hm.
  - pose proof (Nat.div_mod_eq (S n') 2) as Hdiv.
    pose proof (Nat.mod_upper_bound (S n') 2 ltac:(lia)) as Hmod.
    destruct (Nat.eq_dec (S n' mod 2) 0) as [H0 | H1].
    + rewrite Hdiv at 2. rewrite H0, Nat.add_0_r.
      rewrite Nat.log2_double by exact Hhalf. lia.
    + assert (S n' mod 2 = 1) as H by lia.
      rewrite Hdiv at 2. rewrite H.
      rewrite Nat.log2_succ_double by exact Hhalf. lia.
Qed.

Lemma bisect_cost a x lo hi : snd (bisect a x lo hi) <= probes (hi - lo).
Proof.
  funelim (bisect a x lo hi); cbn [fst snd].
  - lia.
  - transitivity (S (probes ((lo + hi) / 2 - lo)));
      [now apply le_n_S | apply probes_half; [lia |]].
    rewrite middle by lia. lia.
  - transitivity (S (probes (hi - S ((lo + hi) / 2))));
      [now apply le_n_S | apply probes_half; [lia |]].
    rewrite middle by lia.
    pose proof (Nat.div_mod_eq (hi - lo) 2) as Hdiv.
    pose proof (Nat.mod_upper_bound (hi - lo) 2 ltac:(lia)) as Hmod.
    lia.
Qed.

(** C9: the sampler keeps one boundary per variant, whatever the
    weights, and one selection compares the draw with at most
    [log2 n + 1] of the [n] boundaries. *)
Theorem sampler_cost_is_logarithmic weights x :
  length (cumulative 0 weights) = length weights
  /\ choose_cost weights x <= Nat.log2 (length weights) + 1.
Proof.
  split; [apply cumulative_length |].
  unfold choose_cost.
  pose proof (bisect_cost (cumulative 0 weights) x 0 (length weights)) as H.
  rewrite Nat.sub_0_r in H. unfold probes in H.
  destruct (length weights); lia.
Qed.

Lemma middle_between lo hi : lo < hi -> lo <= (lo + hi) / 2 < hi.
Proof.
  intros H. split;
    [apply Nat.div_le_lower_bound | apply Nat.Div0.div_lt_upper_bound]; lia.
Qed.

(** The search returns the first boundary above the draw. *)
Lemma bisect_bounds a x lo hi :
  lo <= hi -> lo <= fst (bisect a x lo hi) <= hi.
Proof.
  funelim (bisect a x lo hi); cbn [fst snd]; intros Hle.
  - lia.
  - pose proof (middle_between lo hi ltac:(lia)).
    specialize (H ltac:(lia)). lia.
  - pose proof (middle_between lo hi ltac:(lia)).
    specialize (H ltac:(lia)). lia.
Qed.

Lemma bisect_splits a x lo hi :
  (forall i j, i <= j < length a -> (nth i a 0 <= nth j a 0)%Z) ->
  lo <= hi <= length a ->
  forall j, lo <= j < hi ->
            (j < fst (bisect a x lo hi) -> (nth j a 0 <= x)%Z)
            /\ (fst (bisect a x lo hi) <= j -> (x < nth j a 0)%Z).
Proof.
  intros Hsorted. funelim (bisect a x lo hi); cbn [fst snd]; intros Hr j Hj.
  - lia.
  - pose proof (middle_between lo hi ltac:(lia)) as Hm.
    apply Z.ltb_lt in Heq.
    destruct (Nat.lt_ge_cases j ((lo + hi) / 2)) as [Hlow | Hhigh].
    + apply H; [assumption | lia | lia].
    + pose proof (bisect_bounds a x lo ((lo + hi) / 2) ltac:(lia)).
      split; [lia |]. intros _.
      specialize (Hsorted ((lo + hi) / 2) j ltac:(lia)). lia.
  - pose proof (middle_between lo hi ltac:(lia)) as Hm.
    apply Z.ltb_ge in Heq.
    destruct (Nat.lt_ge_cases ((lo + hi) / 2) j) as [Hhigh | Hlow].
    + apply H; [assumption | lia | lia].
    + pose proof (bisect_bounds a x (S ((lo + hi) / 2)) hi ltac:(lia)).
      split; [| lia]. intros _.
      specialize (Hsorted j ((lo + hi) / 2) ltac:(lia)). lia.
Qed.

Lemma cumulative_nth ws :
  forall acc j, j < length ws ->
                nth j (cumulative acc ws) 0%Z
                = (acc + total (firstn (S j) ws))%Z.
Proof.
  induction ws as [| w ws IH]; intros acc j Hj; simpl in Hj; [lia |].
  destruct j as [| j].
  - simpl. unfold total. simpl. destruct ws; simpl; lia.
  - cbn [cumulative nth]. rewrite IH by lia.
    change (firstn (S (S j)) (w :: ws)) with (w :: firstn (S j) ws).
    unfold total. simpl. lia.
Qed.

Lemma total_firstn_mono ws :
  Forall (fun w => 0 < w)%Z ws ->
  forall i j, i <= j -> (total (firstn i ws) <= total (firstn j ws))%Z.
Proof.
  induction 1 as [| w ws Hw Hws IH]; intros i j Hij.
  - rewrite !firstn_nil. lia.
  - destruct i as [| i]; destruct j as [| j]; try lia.
    + unfold total. simpl. specialize (IH 0 j ltac:(lia)).
      unfold total in IH. simpl in IH. lia.
    + specialize (IH i j ltac:(lia)). unfold total in *. simpl. lia.
Qed.

(** For positive weights and a draw below their sum, the selected index
    is the one whose share of [0, sum) holds the draw: index [i] is
    chosen for exactly [weights[i]] of the draws. *)
Lemma choose_in_share ws x :
  Forall (fun w => 0 < w)%Z ws ->
  (0 <= x < total ws)%Z ->
  choose ws x < length ws
  /\ (total (firstn (choose ws x) ws) <= x
      < total (firstn (S (choose ws x)) ws))%Z.
Proof.
  intros Hpos Hx. unfold choose.
  set (a := cumulative 0 ws). set (n := length ws).
  assert (Hlen : length a = n) by apply cumulative_length.
  assert (Hnth : forall j, j < n ->
                           nth j a 0%Z = total (firstn (S j) ws)).
  { intros j Hj. unfold a. rewrite cumulative_nth by exact Hj. lia. }
  assert (Hsorted : forall i j, i <= j < length a ->
                                (nth i a 0 <= nth j a 0)%Z).
  { intros i j Hij. rewrite !Hnth by lia.
    apply total_firstn_mono; [exact Hpos | lia]. }
  pose proof (bisect_bounds a x 0 n ltac:(lia)) as Hb.
  pose proof (bisect_splits a x 0 n Hsorted ltac:(lia)) as Hs.
  set (r := fst (bisect a x 0 n)) in *.
  assert (Hn : 0 < n).
  { unfold n. destruct ws; simpl in *; [unfold total in Hx; simpl in Hx |];
      lia. }
  assert (Hr : r < n).
  { destruct (Nat.eq_dec r n) as [Heq |]; [| lia].
    destruct (Hs (n - 1) ltac:(lia)) as [Hbelow _].
    specialize (Hbelow ltac:(lia)). rewrite Hnth in Hbelow by lia.
    replace (S (n - 1)) with n in Hbelow by lia.
    unfold n in Hbelow. rewrite firstn_all in Hbelow. lia. }
  split; [exact Hr |]. split.
  - destruct r as [| r'] eqn:Er; [unfold total; simpl; lia |].
    destruct (Hs r' ltac:(lia)) as [Hbelow _].
    rewrite <- Hnth by lia. apply Hbelow. lia.
  - destruct (Hs r ltac:(lia)) as [_ Habove].
    rewrite <- Hnth by lia. apply Habove. lia.
Qed.

(** *** split *)











(** *** Stores over time *)









End EngineProperties.


Module StoreExtras.
Import SQLiteBackend History BackendFacts HistoryFacts Ledger LedgerFacts.

(** X1: after any history, [get_experiment] finds an experiment of the
    name exactly when [set_experiment] was ever called for that name --
    also when that call raised on one of its variants. *)
Theorem experiment_exists_once_set_was_called cs nm vs :
  exists found,
    get_experiment nm vs (replay cs) = (replay cs, Ok found)
    /\ option_map name found
       = if existsb (sets_name nm) cs then Some nm else None.
Proof.
  rewrite get_experiment_eval. eexists. split; [reflexivity |].
  pose proof (existsb_e_fold nm cs empty_db) as Hex. simpl in Hex.
  fold (replay cs) in Hex.
  destruct (existsb (sets_name nm) cs).
  - apply fetchone_filter_found in Hex as [row Hrow]. rewrite Hrow.
    apply fetchone_filter_some in Hrow as [_ Hname].
    apply String.eqb_eq in Hname. simpl. now rewrite Hname.
  - now rewrite (fetchone_filter_none _ _ Hex).
Qed.

(** X2: on a reachable database, [set_experiment] for a new name whose
    variants start with fresh distinct names [pre] and go on with a name
    [x] that table [v] already has (for any experiment) or that occurs
    in [pre] raises IntegrityError and keeps what it wrote: the
    experiment exists from then on with the variants [pre] only. *)
Theorem set_experiment_stops_at_taken_variant d nm pre x post expected :
  reachable d ->
  ~ In nm (e_names d) ->
  NoDup pre ->
  (forall y, In y pre -> ~ In y (v_names d)) ->
  In x (v_names d ++ pre) ->
  snd (set_experiment nm (pre ++ x :: post) d) = Raise IntegrityError
  /\ get_experiment nm expected (fst (set_experiment nm (pre ++ x :: post) d))
     = (fst (set_experiment nm (pre ++ x :: post) d),
        Ok (Some (mk_experiment nm None pre))).
Proof.
  intros Hreach Hnm Hnd Hfresh Hx.
  apply reachable_consistent in Hreach.
  apply names_absent in Hnm.
  assert (Hrun : set_experiment nm (pre ++ x :: post) d
                 = (mk_db (tbl_e d ++ [mk_e nm None])
                          (tbl_v d ++ map (fun v => mk_v v nm) pre)
                          (tbl_i d) (tbl_p d) (tbl_c d),
                    Raise IntegrityError)).
  { unfold set_experiment.
    destruct (insert_e_cases nm d) as [[Hin _] | [_ Hc]]; [congruence |].
    rewrite (bind_ok_step _ _ _ _ _ Hc), for_each_app.
    rewrite (bind_ok_step _ _ _ _ _
               (insert_v_loop_fresh
                  nm pre (set_e d (tbl_e d ++ [mk_e nm None])) Hnd Hfresh)).
    simpl.
    match goal with
    | |- bind (insert_v x nm) _ ?s = _ =>
        destruct (insert_v_cases x nm s) as [[_ Hv] | [Hv _]]
    end.
    - now rewrite (bind_raise_step _ _ _ _ _ Hv).
    - exfalso. simpl in Hv. apply not_in_names in Hv. apply Hv.
      rewrite map_app, map_map. simpl. rewrite map_id. exact Hx. }
  rewrite Hrun. simpl. split; [reflexivity |].
  rewrite get_experiment_eval. simpl.
  rewrite fetchone_filter_app, (fetchone_filter_none _ _ Hnm). simpl.
  rewrite String.eqb_refl. simpl. unfold _factory. simpl.
  rewrite filter_app, map_app, (no_orphans d nm Hreach Hnm), own_rows.
  reflexivity.
Qed.

Lemma set_experiment_stops_at_taken_variant_witness :
  snd (set_experiment "text_color" (["blue"] ++ "red" :: ["green"])
                      Contract.primary_color_db)
  = Raise IntegrityError
  /\ get_experiment "text_color" ["blue"; "red"; "green"]
       (fst (set_experiment "text_color" (["blue"] ++ "red" :: ["green"])
                            Contract.primary_color_db))
     = (fst (set_experiment "text_color" (["blue"] ++ "red" :: ["green"])
                            Contract.primary_color_db),
        Ok (Some (mk_experiment "text_color" None ["blue"]))).
Proof.
  apply (set_experiment_stops_at_taken_variant
           Contract.primary_color_db "text_color" ["blue"] "red" ["green"]).
  - exists [SetExperiment "primary_color" ["red"; "green"]]. reflexivity.
  - simpl. intros [H | []]. discriminate H.
  - repeat constructor. simpl. tauto.
  - simpl. intros y [<- | []] [H | [H | []]]; discriminate H.
  - simpl. auto.
Defined.

(** X3: an experiment that [get_experiment] returns is returned
    unchanged after any further call of [set_experiment] (for this or
    another name, returning or raising), [participate] or [score]. *)
Theorem stored_experiment_never_changes d c nm vs ex :
  get_experiment nm vs d = (d, Ok (Some ex)) ->
  get_experiment nm vs (after d c) = (after d c, Ok (Some ex)).
Proof. apply experiment_kept_after. Qed.

Lemma stored_experiment_never_changes_witness :
  get_experiment "primary_color" []
    (after Contract.primary_color_db
           (SetExperiment "primary_color" ["blue"; "white"]))
  = (after Contract.primary_color_db
           (SetExperiment "primary_color" ["blue"; "white"]),
     Ok (Some (mk_experiment "primary_color" None ["red"; "green"]))).
Proof.
  apply (stored_experiment_never_changes Contract.primary_color_db).
  reflexivity.
Defined.

(** X4: after any history a variant name belongs to one experiment at
    most: two experiments that [get_experiment] returns and that share a
    variant name are stored under the same name; and no experiment
    lists a variant twice. *)
Theorem variant_belongs_to_one_experiment cs n1 n2 vs1 vs2 ex1 ex2 v :
  get_experiment n1 vs1 (replay cs) = (replay cs, Ok (Some ex1)) ->
  get_experiment n2 vs2 (replay cs) = (replay cs, Ok (Some ex2)) ->
  In v (variants ex1) ->
  In v (variants ex2) ->
  n1 = n2 /\ NoDup (variants ex1).
Proof.
  rewrite !get_experiment_eval. intros H1 H2 Hv1 Hv2.
  assert (Hcons : consistent (replay cs))
    by (apply reachable_consistent; now exists cs).
  destruct Hcons as (_ & Hnd & _).
  destruct (fetchone (filter _ (tbl_e (replay cs)))) as [r1 |] eqn:Hr1
    in H1; [| discriminate].
  destruct (fetchone (filter _ (tbl_e (replay cs)))) as [r2 |] eqn:Hr2
    in H2; [| discriminate].
  simpl in H1, H2. inversion H1; subst ex1. inversion H2; subst ex2.
  clear H1 H2. simpl in *.
  apply fetchone_filter_some in Hr1 as [_ Hn1].
  apply fetchone_filter_some in Hr2 as [_ Hn2].
  apply String.eqb_eq in Hn1, Hn2.
  split; [| now apply NoDup_map_filter].
  apply in_map_iff in Hv1 as (w1 & Hw1 & Hin1).
  apply in_map_iff in Hv2 as (w2 & Hw2 & Hin2).
  apply filter_In in Hin1 as [Hin1 He1].
  apply filter_In in Hin2 as [Hin2 He2].
  apply String.eqb_eq in He1, He2.
  assert (w1 = w2)
    by (apply (NoDup_map_inj v_name (tbl_v (replay cs))); congruence).
  congruence.
Qed.

Lemma variant_belongs_to_one_experiment_witness :
  "show_promo" = "show_promo"
  /\ NoDup (variants (mk_experiment "show_promo" None ["True"; "False"])).
Proof.
  apply (variant_belongs_to_one_experiment
           busy_history "show_promo" "show_promo" [] []
           (mk_experiment "show_promo" None ["True"; "False"])
           (mk_experiment "show_promo" None ["True"; "False"])
           "False").
  - vm_compute. reflexivity.
  - vm_compute. reflexivity.
  - simpl. auto.
  - simpl. auto.
Defined.

(** X5: after any history [get_experiment] and [all_experiments] agree:
    the lookup of a name returns an experiment exactly when the full
    scan lists that experiment under that name. *)
Theorem get_experiment_agrees_with_all_experiments cs nm vs ex :
  exists exps,
    all_experiments (replay cs) = (replay cs, Ok exps)
    /\ (get_experiment nm vs (replay cs) = (replay cs, Ok (Some ex))
        <-> In ex exps /\ name ex = nm).
Proof.
  eexists. split; [reflexivity |].
  rewrite get_experiment_eval.
  assert (Hcons : consistent (replay cs))
    by (apply reachable_consistent; now exists cs).
  destruct Hcons as (Hnd & _ & _).
  split.
  - intros H.
    destruct (fetchone (filter _ (tbl_e (replay cs)))) as [row |] eqn:Hrow;
      [| discriminate].
    simpl in H. inversion H; subst ex.
    apply fetchone_filter_some in Hrow as [Hin Hname].
    apply String.eqb_eq in Hname. split; [now apply in_map | exact Hname].
  - intros [Hin Hname]. apply in_map_iff in Hin as (row & <- & Hin).
    simpl in Hname.
    assert (Hex : existsb (fun r => String.eqb (e_name r) nm)
                          (tbl_e (replay cs)) = true).
    { apply existsb_exists. exists row. split; [exact Hin |].
      now apply String.eqb_eq. }
    apply fetchone_filter_found in Hex as [row0 Hrow0]. rewrite Hrow0.
    apply fetchone_filter_some in Hrow0 as [Hin0 Hname0].
    apply String.eqb_eq in Hname0.
    assert (row0 = row)
      by (apply (NoDup_map_inj e_name (tbl_e (replay cs))); congruence).
    now subst.
Qed.

(** X6: after any history, a [set_experiment] that returns puts the new
    experiment, with its variants in the given order, at the end of what
    [all_experiments] lists, and leaves the experiments listed before as
    they were. *)
Theorem all_experiments_in_creation_order cs nm vs d' :
  set_experiment nm vs (replay cs) = (d', Ok tt) ->
  exists exps,
    all_experiments (replay cs) = (replay cs, Ok exps)
    /\ all_experiments d' = (d', Ok (exps ++ [mk_experiment nm None vs])).
Proof.
  intros Hset. eexists. split; [reflexivity |].
  assert (Hcons : consistent (replay cs))
    by (apply reachable_consistent; now exists cs).
  apply set_experiment_ok in Hset as [Hfresh ->].
  unfold all_experiments, query. simpl. rewrite map_app. simpl.
  do 3 f_equal.
  - apply map_ext_in. intros row Hrow. unfold _factory. simpl.
    rewrite filter_app, foreign_rows; [now rewrite app_nil_r |].
    intros ->. apply not_in_names in Hfresh. apply Hfresh.
    now apply in_map.
  - unfold _factory. simpl.
    rewrite filter_app, map_app, (no_orphans _ nm Hcons Hfresh), own_rows.
    reflexivity.
Qed.

Lemma all_experiments_in_creation_order_witness :
  exists exps,
    all_experiments (replay [SetExperiment "show_promo" ["True"; "False"]])
    = (replay [SetExperiment "show_promo" ["True"; "False"]], Ok exps)
    /\ all_experiments
         (replay [SetExperiment "show_promo" ["True"; "False"];
                  SetExperiment "primary_color" ["red"; "green"]])
       = (replay [SetExperiment "show_promo" ["True"; "False"];
                  SetExperiment "primary_color" ["red"; "green"]],
          Ok (exps ++ [mk_experiment "primary_color" None ["red"; "green"]])).
Proof.
  apply (all_experiments_in_creation_order
           [SetExperiment "show_promo" ["True"; "False"]]
           "primary_color" ["red"; "green"]).
  reflexivity.
Defined.

(** X7: after any history, [get_variant] returns the variant of the
    earliest [participate] call for the visitor and the experiment, and
    [None] when there was none. *)
Theorem get_variant_is_first_participation cs identity e :
  get_variant identity e (replay cs)
  = (replay cs, Ok (first_participation identity e cs)).
Proof.
  rewrite get_variant_eval. unfold replay.
  now rewrite variant_fold.
Qed.

(** X8: on any database, a call changes what [get_variant] returns for
    a pair only when the pair had no assignment and the call is a
    [participate] for it; an assignment that is there is never
    replaced. *)
Theorem first_assignment_wins d c identity e :
  exists found,
    get_variant identity e d = (d, Ok found)
    /\ get_variant identity e (after d c)
       = (after d c,
          Ok match found with
             | Some v => Some v
             | None => assigns identity e c
             end).
Proof.
  rewrite !get_variant_eval. eexists. split; [reflexivity |].
  now rewrite variant_after.
Qed.

(** X9: after any history from the created tables, [participants]
    returns the number of [participate] calls made for the pair and
    [conversions] the number of [score] calls, each capped at [2^63],
    where the counter cell stops moving. *)
Theorem counters_count_the_calls cs e v :
  participants e v (replay cs)
  = (replay cs,
     Ok (Z.min (count_calls (participates_in e v) cs) (int64_max + 1)))
  /\ conversions e v (replay cs)
     = (replay cs,
        Ok (Z.min (count_calls (scores e v) cs) (int64_max + 1))).
Proof.
  unfold participants, conversions, query, replay. split; do 2 f_equal.
  - apply (fold_saturates (fun d => counted (tbl_p d) e v)
                          (participates_in e v)
                          (fun d c => counted_p_after d c e v)
                          cs empty_db 0%Z); [lia | reflexivity].
  - apply (fold_saturates (fun d => counted (tbl_c d) e v)
                          (scores e v)
                          (fun d c => counted_c_after d c e v)
                          cs empty_db 0%Z); [lia | reflexivity].
Qed.

(** X10: on any database, a call moves what [participants] returns for
    a pair only when it is a [participate] for that pair, and what
    [conversions] returns only when it is a [score] for that pair; all
    other calls, [set_experiment] that raises included, leave both
    readings as they are. *)
Theorem call_moves_one_counter d c e v :
  exists n m,
    participants e v d = (d, Ok n)
    /\ conversions e v d = (d, Ok m)
    /\ participants e v (after d c)
       = (after d c, Ok (if participates_in e v c then plus_one n else n))
    /\ conversions e v (after d c)
       = (after d c, Ok (if scores e v c then plus_one m else m)).
Proof.
  do 2 eexists. unfold participants, conversions, query.
  repeat split; do 2 f_equal.
  - apply counted_p_after.
  - apply counted_c_after.
Qed.

(** X11: after any history from the created tables, [participants]
    for a pair is the number of rows of the assignment table that name
    the experiment and the variant (capped at [2^63]). *)
Theorem participants_match_assignment_rows cs e v :
  participants e v (replay cs)
  = (replay cs,
     Ok (Z.min (Z.of_nat (length (assigned_to e v (replay cs))))
               (int64_max + 1))).
Proof.
  unfold participants, query, replay. do 2 f_equal.
  rewrite (fold_counts (fun d => Z.of_nat (length (assigned_to e v d)))
                       (participates_in e v)
                       (fun d c => assigned_to_after d c e v)).
  apply (fold_saturates (fun d => counted (tbl_p d) e v)
                        (participates_in e v)
                        (fun d c => counted_p_after d c e v)
                        cs empty_db 0%Z); [lia | reflexivity].
Qed.

(** X12: after any history, every experiment that [all_experiments]
    lists has no [started_on]: the column is never written. *)
Theorem started_on_is_never_set cs :
  exists exps,
    all_experiments (replay cs) = (replay cs, Ok exps)
    /\ Forall (fun ex => started_on ex = None) exps.
Proof.
  eexists. split; [reflexivity |].
  apply Forall_map. unfold _factory. simpl.
  apply (started_on_fold cs empty_db). constructor.
Qed.

(** X13: [set_experiment] returns exactly when the name is not in
    table [e], the variant names are distinct and none of them is in
    table [v] yet (for any experiment); in every other case it raises
    IntegrityError. *)
Theorem set_experiment_returns_iff_fresh d nm vs :
  (snd (set_experiment nm vs d) = Ok tt
   <-> ~ In nm (e_names d)
       /\ NoDup vs
       /\ forall x, In x vs -> ~ In x (v_names d))
  /\ (snd (set_experiment nm vs d) = Ok tt
      \/ snd (set_experiment nm vs d) = Raise IntegrityError).
Proof.
  unfold set_experiment. split.
  - split.
    + intros H.
      destruct (bind _ _ d) as [d' r] eqn:Hrun. simpl in H. subst r.
      apply bind_ok_inv in Hrun as ([] & d1 & He & Hloop).
      destruct (insert_e_cases nm d) as [[_ Hc] | [Hfresh Hc]];
        rewrite Hc in He; inversion He; subst.
      split; [now apply not_in_names |].
      now apply insert_v_loop_returns in Hloop.
    + intros (Hnm & Hnd & Hfresh). apply names_absent in Hnm.
      destruct (insert_e_cases nm d) as [[Hin _] | [_ Hc]]; [congruence |].
      rewrite (bind_ok_step _ _ _ _ _ Hc).
      now rewrite (insert_v_loop_fresh
                     nm vs (set_e d (tbl_e d ++ [mk_e nm None])) Hnd Hfresh).
  - destruct (insert_e_cases nm d) as [[_ Hc] | [_ Hc]].
    + right. now rewrite (bind_raise_step _ _ _ _ _ Hc).
    + rewrite (bind_ok_step _ _ _ _ _ Hc). apply insert_v_loop_outcome.
Qed.

End StoreExtras.
